(** * fuel-subsquid-token-indexer: the asset identifier and the batch handler

    A shallow embedding of the processor's entry module (the identity
    deriver [getAssetId], the fetch-or-create helper [getAsset] and the batch
    handler passed to [run]) and of the [Asset] entity of
    [src/model/generated/asset.model.ts], followed by the properties of the
    specification that hold of them.

    Conventions of the embedding.
    - A JavaScript string is a [string] where its characters are below
      U+0100, as are the identifiers and payloads of the stream; where
      characters beyond matter, in the hexadecimal decoding of [getAssetId],
      it is also given as the [list Z] of its UTF-16 code units.  A [Buffer]
      is a [list Z] of bytes (each in [0, 256)); a 32-bit word is a [Z]
      reduced modulo [2^32].
    - A nullable entity column ([string | undefined | null]) is an [option]:
      [None] stands for both [undefined] and [null], which the store persists
      alike as SQL [NULL].
    - An [Asset] instance is a mutable object: it lives in a heap and is named
      by its reference (its index in the heap).  The per-batch table
      [assetsById] maps identifiers to references.
    - The handler runs in a state-and-exception monad over the [World]: a
      thrown exception keeps the state reached so far. *)

From Stdlib Require Import ZArith Ascii String List Bool Lia.
From stdpp Require Import base list.
Local Open Scope Z_scope.

(* ===================================================================== *)
(** ** Strings and buffers *)
(* ===================================================================== *)

(** [s.slice(start)] for a non-negative [start]: the suffix of [s] from
    position [start], empty when [s] is shorter. *)
Fixpoint slice (start : nat) (s : string) : string :=
  match start, s with
  | O, _ => s
  | S n, String _ rest => slice n rest
  | S _, EmptyString => EmptyString
  end.

Module Buffer.

(** Value of one hexadecimal digit, either case; [None] for any other
    character. *)
Definition unhex (c : ascii) : option Z :=
  let n := Z.of_N (N_of_ascii c) in
  if (48 <=? n) && (n <=? 57) then Some (n - 48)
  else if (65 <=? n) && (n <=? 70) then Some (n - 55)
  else if (97 <=? n) && (n <=? 102) then Some (n - 87)
  else None.

(** [Buffer.from(s, 'hex')] on a string of characters below U+0100: pairs
    of hexadecimal digits are decoded from the left; decoding stops,
    without an exception, at the first pair that is not two hexadecimal
    digits, and a trailing single character is dropped. *)
Fixpoint from_hex (s : string) : list Z :=
  match s with
  | String a (String b rest) =>
      match unhex a, unhex b with
      | Some hi, Some lo => (16 * hi + lo) :: from_hex rest
      | _, _ => []
      end
  | _ => []
  end.

Definition hex_digit (n : Z) : ascii :=
  ascii_of_N (Z.to_N (if n <? 10 then 48 + n else 87 + n)).

(** [buf.toString('hex')]: two lowercase digits per byte. *)
Fixpoint to_hex (bs : list Z) : string :=
  match bs with
  | [] => EmptyString
  | b :: bs' =>
      String (hex_digit (Z.shiftr b 4))
             (String (hex_digit (Z.land b 15)) (to_hex bs'))
  end.

End Buffer.

(** A string that [Buffer.from_hex] decodes completely: hexadecimal digits
    only, an even number of them. *)
Fixpoint well_formed_hex (s : string) : bool :=
  match s with
  | EmptyString => true
  | String a (String b rest) =>
      match Buffer.unhex a, Buffer.unhex b with
      | Some _, Some _ => well_formed_hex rest
      | _, _ => false
      end
  | String _ EmptyString => false
  end.

(* ===================================================================== *)
(** ** [crypto.createHash('sha256')]: SHA-256 (FIPS 180-4) *)
(* ===================================================================== *)

Module SHA256.

Definition wrap (x : Z) : Z := x mod 2 ^ 32.
Definition add (x y : Z) : Z := wrap (x + y).
Definition rotr (n x : Z) : Z :=
  Z.lor (Z.shiftr x n) (wrap (Z.shiftl x (32 - n))).
Definition shr (n x : Z) : Z := Z.shiftr x n.
Definition not32 (x : Z) : Z := Z.lxor x 0xFFFFFFFF.

Definition Ch (x y z : Z) : Z := Z.lxor (Z.land x y) (Z.land (not32 x) z).
Definition Maj (x y z : Z) : Z :=
  Z.lxor (Z.lxor (Z.land x y) (Z.land x z)) (Z.land y z).
Definition Sigma0 (x : Z) : Z :=
  Z.lxor (Z.lxor (rotr 2 x) (rotr 13 x)) (rotr 22 x).
Definition Sigma1 (x : Z) : Z :=
  Z.lxor (Z.lxor (rotr 6 x) (rotr 11 x)) (rotr 25 x).
Definition sigma0 (x : Z) : Z :=
  Z.lxor (Z.lxor (rotr 7 x) (rotr 18 x)) (shr 3 x).
Definition sigma1 (x : Z) : Z :=
  Z.lxor (Z.lxor (rotr 17 x) (rotr 19 x)) (shr 10 x).

(** The sixty-four round constants. *)
Definition K : list Z :=
  [0x428A2F98; 0x71374491; 0xB5C0FBCF; 0xE9B5DBA5;
   0x3956C25B; 0x59F111F1; 0x923F82A4; 0xAB1C5ED5;
   0xD807AA98; 0x12835B01; 0x243185BE; 0x550C7DC3;
   0x72BE5D74; 0x80DEB1FE; 0x9BDC06A7; 0xC19BF174;
   0xE49B69C1; 0xEFBE4786; 0x0FC19DC6; 0x240CA1CC;
   0x2DE92C6F; 0x4A7484AA; 0x5CB0A9DC; 0x76F988DA;
   0x983E5152; 0xA831C66D; 0xB00327C8; 0xBF597FC7;
   0xC6E00BF3; 0xD5A79147; 0x06CA6351; 0x14292967;
   0x27B70A85; 0x2E1B2138; 0x4D2C6DFC; 0x53380D13;
   0x650A7354; 0x766A0ABB; 0x81C2C92E; 0x92722C85;
   0xA2BFE8A1; 0xA81A664B; 0xC24B8B70; 0xC76C51A3;
   0xD192E819; 0xD6990624; 0xF40E3585; 0x106AA070;
   0x19A4C116; 0x1E376C08; 0x2748774C; 0x34B0BCB5;
   0x391C0CB3; 0x4ED8AA4A; 0x5B9CCA4F; 0x682E6FF3;
   0x748F82EE; 0x78A5636F; 0x84C87814; 0x8CC70208;
   0x90BEFFFA; 0xA4506CEB; 0xBEF9A3F7; 0xC67178F2].

(** The eight working variables, also the shape of a hash value. *)
Record vars := Vars { va : Z; vb : Z; vc : Z; vd : Z;
                      ve : Z; vf : Z; vg : Z; vh : Z }.

Definition H0 : vars :=
  Vars 0x6A09E667 0xBB67AE85 0x3C6EF372 0xA54FF53A
       0x510E527F 0x9B05688C 0x1F83D9AB 0x5BE0CD19.

(** One round, with round constant [k] and schedule word [wt]. *)
Definition round (k wt : Z) (v : vars) : vars :=
  let t1 := add (add (add (add (vh v) (Sigma1 (ve v)))
                           (Ch (ve v) (vf v) (vg v))) k) wt in
  let t2 := add (Sigma0 (va v)) (Maj (va v) (vb v) (vc v)) in
  Vars (add t1 t2) (va v) (vb v) (vc v) (add (vd v) t1) (ve v) (vf v) (vg v).

(** The message schedule is kept as a window of its last sixteen words,
    oldest first: the word that follows [W(t) .. W(t+15)] is
    [sigma1 W(t+14) + W(t+9) + sigma0 W(t+1) + W(t)]. *)
Definition next_word (win : list Z) : Z :=
  add (add (add (sigma1 (nth 14 win 0)) (nth 9 win 0))
           (sigma0 (nth 1 win 0))) (nth 0 win 0).

Fixpoint rounds (ks : list Z) (win : list Z) (v : vars) : vars :=
  match ks with
  | [] => v
  | k :: ks' =>
      rounds ks' (tl win ++ [next_word win]) (round k (nth 0 win 0) v)
  end.

(** Big-endian bytes to words and back. *)
Fixpoint words_of_bytes (bs : list Z) : list Z :=
  match bs with
  | b0 :: b1 :: b2 :: b3 :: rest =>
      (Z.shiftl b0 24 + Z.shiftl b1 16 + Z.shiftl b2 8 + b3)
        :: words_of_bytes rest
  | _ => []
  end.

Definition bytes_of_word (x : Z) : list Z :=
  [Z.land (Z.shiftr x 24) 255; Z.land (Z.shiftr x 16) 255;
   Z.land (Z.shiftr x 8) 255; Z.land x 255].

(** Compression of one 64-byte block into the hash value [h]. *)
Definition compress (h : vars) (block : list Z) : vars :=
  let v := rounds K (words_of_bytes block) h in
  Vars (add (va h) (va v)) (add (vb h) (vb v))
       (add (vc h) (vc v)) (add (vd h) (vd v))
       (add (ve h) (ve v)) (add (vf h) (vf v))
       (add (vg h) (vg v)) (add (vh h) (vh v)).

(** Padding: a [0x80] byte, zero bytes up to 56 modulo 64, and the length
    of the message in bits as a 64-bit big-endian integer. *)
Definition pad (msg : list Z) : list Z :=
  let len := Z.of_nat (length msg) in
  let bits := 8 * len in
  msg ++ [128] ++ repeat 0 (Z.to_nat ((55 - len) mod 64))
      ++ bytes_of_word (Z.shiftr bits 32) ++ bytes_of_word bits.

Fixpoint blocks (n : nat) (bs : list Z) : list (list Z) :=
  match n with
  | O => []
  | S n' => take 64 bs :: blocks n' (drop 64 bs)
  end.

Definition digest (msg : list Z) : list Z :=
  let padded := pad msg in
  let h := fold_left compress (blocks (length padded / 64) padded) H0 in
  bytes_of_word (va h) ++ bytes_of_word (vb h) ++ bytes_of_word (vc h)
    ++ bytes_of_word (vd h) ++ bytes_of_word (ve h) ++ bytes_of_word (vf h)
    ++ bytes_of_word (vg h) ++ bytes_of_word (vh h).

End SHA256.

(** The [Hash] object of Node's [crypto]: [update] absorbs data, [digest]
    finishes.  The object is created, fed and finished inside one
    expression, so it is modelled by the data it has absorbed. *)
Module crypto.

Record Hash := { absorbed : list Z }.

Definition createHash_sha256 : Hash := {| absorbed := [] |}.

Definition update (h : Hash) (data : list Z) : Hash :=
  {| absorbed := absorbed h ++ data |}.

Definition digest_hex (h : Hash) : string :=
  Buffer.to_hex (SHA256.digest (absorbed h)).

End crypto.

(* ===================================================================== *)
(** ** The identity deriver *)
(* ===================================================================== *)

(** [getAssetId(contractId, subId)]:
    ['0x' + createHash('sha256')
              .update(Buffer.from(contractId.slice(2) + subId.slice(2), 'hex'))
              .digest('hex')].
    The two suffixes are concatenated as strings before they are decoded. *)
Definition getAssetId (contractId subId : string) : string :=
  ("0x" ++ crypto.digest_hex
             (crypto.update crypto.createHash_sha256
                (Buffer.from_hex (slice 2 contractId ++ slice 2 subId))))%string.

(* ===================================================================== *)
(** ** The data model *)
(* ===================================================================== *)

(** The [Asset] entity: [id] is the primary key, every other column is
    nullable.  The setters are the field assignments of the handler. *)
Module Asset.

Record t := {
  id : string;
  contractId : option string;
  subId : option string;
  name : option string;
  symbol : option string;
  decimals : option Z
}.

(** [new Asset({id: assetId})]: [Object.assign] copies the one property
    given, every other field stays unset. *)
Definition new (assetId : string) : t :=
  {| id := assetId; contractId := None; subId := None;
     name := None; symbol := None; decimals := None |}.

Definition set_contractId (v : option string) (a : t) : t :=
  {| id := id a; contractId := v; subId := subId a;
     name := name a; symbol := symbol a; decimals := decimals a |}.

Definition set_subId (v : option string) (a : t) : t :=
  {| id := id a; contractId := contractId a; subId := v;
     name := name a; symbol := symbol a; decimals := decimals a |}.

Definition set_name (v : option string) (a : t) : t :=
  {| id := id a; contractId := contractId a; subId := subId a;
     name := v; symbol := symbol a; decimals := decimals a |}.

Definition set_symbol (v : option string) (a : t) : t :=
  {| id := id a; contractId := contractId a; subId := subId a;
     name := name a; symbol := v; decimals := decimals a |}.

Definition set_decimals (v : option Z) (a : t) : t :=
  {| id := id a; contractId := contractId a; subId := subId a;
     name := name a; symbol := symbol a; decimals := v |}.

End Asset.

(** The receipt kinds of the Fuel data source. *)
Inductive ReceiptType :=
| CALL | RETURN | RETURN_DATA | PANIC | REVERT | LOG | LOG_DATA
| TRANSFER | TRANSFER_OUT | SCRIPT_RESULT | MESSAGE_OUT | MINT | BURN.

Definition ReceiptType_eqb (x y : ReceiptType) : bool :=
  match x, y with
  | CALL, CALL | RETURN, RETURN | RETURN_DATA, RETURN_DATA | PANIC, PANIC
  | REVERT, REVERT | LOG, LOG | LOG_DATA, LOG_DATA | TRANSFER, TRANSFER
  | TRANSFER_OUT, TRANSFER_OUT | SCRIPT_RESULT, SCRIPT_RESULT
  | MESSAGE_OUT, MESSAGE_OUT | MINT, MINT | BURN, BURN => true
  | _, _ => false
  end.

(** A receipt, with the fields selected by [setFields]; all but the kind are
    optional in the stream's type ([assetId] is selected but never read). *)
Module Receipt.

Record t := {
  receiptType : ReceiptType;
  contract : option string;
  subId : option string;
  rb : option Z;
  data : option string
}.

End Receipt.

(** A block as the handler sees it: [augmentBlock] only adds references
    between the items of a block, and the handler reads [block.receipts]. *)
Module Block.

Record t := { receipts : list Receipt.t }.

End Block.

Definition setNameEventId : Z := 7845998088195677205.
Definition setSymbolEventId : Z := 12152039456660331088.
Definition setDecimalsEventId : Z := 18149631459970394923.

(* ===================================================================== *)
(** ** Exceptions, the world and the handler monad *)
(* ===================================================================== *)

(** What the handler can throw: a [TypeError] when [getAssetId] is handed an
    absent field ([undefined.slice]), and whatever [decodeLog] throws on a
    payload it cannot decode. *)
Inductive Exn := TypeError | DecodeError.

Inductive Outcome (A : Type) :=
| Returns (a : A)
| Throws (e : Exn).
Arguments Returns {A} a.
Arguments Throws {A} e.

(** [src20Interface = new Interface(src20Abi)].  The binary layouts of the
    three logs are fixed by the ABI file [abis/src20-abi.json] and decoded
    by the [fuels] library; here they are parameters:
    [decodeLog(data, logId)] at each of the three log ids, returning the
    fields the handler reads from the first decoded value, namely
    [asset.bits] and the [name], [symbol] or [decimals].  The argument is
    [receipt.data], possibly absent; a payload that does not decode
    throws. *)
Record Interface := {
  decodeLog_setName : option string -> Outcome (string * string);
  decodeLog_setSymbol : option string -> Outcome (string * string);
  decodeLog_setDecimals : option string -> Outcome (string * Z)
}.

(** The state the handler acts upon.
    - [store]: the rows of table [asset] behind [ctx.store], primary key
      [Asset.id].
    - [heap]: the [Asset] instances created during the batch; a reference
      is an index.
    - [assetsById]: the handler's [Record<string, Asset>], in insertion
      order, which is the order of [Object.values] for identifiers such as
      the [0x...] strings used here (neither array indices nor names
      inherited from [Object.prototype]).
    - [findOne_calls], [upsert_calls]: the calls made to the store, oldest
      first.
    - [console]: what [console.log] printed. *)
Record World := {
  store : list Asset.t;
  heap : list Asset.t;
  assetsById : list (string * nat);
  findOne_calls : list string;
  upsert_calls : list (list Asset.t);
  console : list (string * string)
}.

Definition M (A : Type) : Type := World -> Outcome A * World.

Definition ret {A} (a : A) : M A := fun w => (Returns a, w).

Definition throw {A} (e : Exn) : M A := fun w => (Throws e, w).

Definition bind {A B} (m : M A) (k : A -> M B) : M B :=
  fun w =>
    match m w with
    | (Returns a, w') => k a w'
    | (Throws e, w') => (Throws e, w')
    end.

Notation "'let!' x ':=' m 'in' k" := (bind m (fun x => k))
  (at level 10, x name, m at level 200, k at level 200).

(** An [Outcome] computed without touching the world. *)
Definition lift {A} (o : Outcome A) : M A := fun w => (o, w).

(** [for (let x of xs) body(x)]. *)
Fixpoint forEach {A} (xs : list A) (body : A -> M unit) : M unit :=
  match xs with
  | [] => ret tt
  | x :: xs' => let! _ := body x in forEach xs' body
  end.

(* ===================================================================== *)
(** ** The keyed record store *)
(* ===================================================================== *)

Definition has_id (k : string) (a : Asset.t) : bool := String.eqb (Asset.id a) k.

(** The row selected by [where: {id: k}]. *)
Definition find_row (k : string) (rows : list Asset.t) : option Asset.t :=
  find (has_id k) rows.

(** Insert-or-update of one row, keyed by its [id]. *)
Fixpoint upsert_row (a : Asset.t) (rows : list Asset.t) : list Asset.t :=
  match rows with
  | [] => [a]
  | r :: rows' =>
      if has_id (Asset.id a) r then a :: rows' else r :: upsert_row a rows'
  end.

Definition upsert_rows (records : list Asset.t) (rows : list Asset.t)
  : list Asset.t :=
  fold_left (fun acc a => upsert_row a acc) records rows.

(** Allocation of a new instance. *)
Definition alloc (a : Asset.t) : M nat :=
  fun w =>
    (Returns (length (heap w)),
     {| store := store w; heap := heap w ++ [a];
        assetsById := assetsById w; findOne_calls := findOne_calls w;
        upsert_calls := upsert_calls w; console := console w |}).

(** [ctx.store.findOne(Asset, {where: {id: assetId}})]: the call is
    recorded; a row that is found comes back as a new instance. *)
Definition findOne (assetId : string) : M (option nat) :=
  let! found :=
    (fun w =>
       (Returns (find_row assetId (store w)),
        {| store := store w; heap := heap w;
           assetsById := assetsById w;
           findOne_calls := findOne_calls w ++ [assetId];
           upsert_calls := upsert_calls w; console := console w |})) in
  match found with
  | Some row => let! r := alloc row in ret (Some r)
  | None => ret None
  end.

(** [ctx.store.upsert(records)]. *)
Definition upsert (records : list Asset.t) : M unit :=
  fun w =>
    (Returns tt,
     {| store := upsert_rows records (store w); heap := heap w;
        assetsById := assetsById w; findOne_calls := findOne_calls w;
        upsert_calls := upsert_calls w ++ [records];
        console := console w |}).

(* ===================================================================== *)
(** ** The per-batch table and the instances *)
(* ===================================================================== *)

(** [o[k]] *)
Fixpoint get_prop (k : string) (o : list (string * nat)) : option nat :=
  match o with
  | [] => None
  | (k', v) :: o' => if String.eqb k' k then Some v else get_prop k o'
  end.

(** [o[k] = v]: an existing key keeps its place. *)
Fixpoint set_prop (k : string) (v : nat) (o : list (string * nat))
  : list (string * nat) :=
  match o with
  | [] => [(k, v)]
  | (k', v') :: o' =>
      if String.eqb k' k then (k', v) :: o' else (k', v') :: set_prop k v o'
  end.

Definition read_assetsById (assetId : string) : M (option nat) :=
  fun w => (Returns (get_prop assetId (assetsById w)), w).

Definition write_assetsById (assetId : string) (r : nat) : M unit :=
  fun w =>
    (Returns tt,
     {| store := store w; heap := heap w;
        assetsById := set_prop assetId r (assetsById w);
        findOne_calls := findOne_calls w;
        upsert_calls := upsert_calls w; console := console w |}).

(** A field assignment [asset.f = v] on the instance at reference [r]. *)
Definition assign (r : nat) (setter : Asset.t -> Asset.t) : M unit :=
  fun w =>
    (Returns tt,
     {| store := store w; heap := alter setter r (heap w);
        assetsById := assetsById w; findOne_calls := findOne_calls w;
        upsert_calls := upsert_calls w; console := console w |}).

Definition console_log (e : string * string) : M unit :=
  fun w =>
    (Returns tt,
     {| store := store w; heap := heap w; assetsById := assetsById w;
        findOne_calls := findOne_calls w; upsert_calls := upsert_calls w;
        console := console w ++ [e] |}).

(** [Object.values(assetsById)]: the instances, in the order of the keys. *)
Definition Object_values : M (list Asset.t) :=
  fun w => (Returns (omap (fun kv => heap w !! snd kv) (assetsById w)), w).

(* ===================================================================== *)
(** ** The handler *)
(* ===================================================================== *)

(** The call [getAssetId(receipt.contract!, receipt.subId!)]: the non-null
    assertions are erased at run time, so an absent field reaches [.slice]
    and throws. *)
Definition call_getAssetId (contract subId : option string) : M string :=
  match contract, subId with
  | Some c, Some s => ret (getAssetId c s)
  | _, _ => throw TypeError
  end.

(** [getAsset]: the table, else the store, else a new record; the result is
    (re)entered in the table. *)
Definition getAsset (assetId : string) : M nat :=
  let! asset := read_assetsById assetId in
  let! asset :=
    match asset with
    | Some r => ret (Some r)
    | None => findOne assetId
    end in
  let! asset :=
    match asset with
    | Some r => ret r
    | None => alloc (Asset.new assetId)
    end in
  let! _ := write_assetsById assetId asset in
  ret asset.

Section Handler.

Variable src20Interface : Interface.

Definition on_mint (receipt : Receipt.t) : M unit :=
  let! assetId :=
    call_getAssetId (Receipt.contract receipt) (Receipt.subId receipt) in
  let! mintedAsset := getAsset assetId in
  let! _ :=
    assign mintedAsset (Asset.set_contractId (Receipt.contract receipt)) in
  assign mintedAsset (Asset.set_subId (Receipt.subId receipt)).

Definition on_setName (receipt : Receipt.t) : M unit :=
  let! nameEvent :=
    lift (decodeLog_setName src20Interface (Receipt.data receipt)) in
  let! _ := console_log nameEvent in
  let! nameAsset := getAsset (fst nameEvent) in
  assign nameAsset (Asset.set_name (Some (snd nameEvent))).

Definition on_setSymbol (receipt : Receipt.t) : M unit :=
  let! symbolEvent :=
    lift (decodeLog_setSymbol src20Interface (Receipt.data receipt)) in
  let! symbolAsset := getAsset (fst symbolEvent) in
  assign symbolAsset (Asset.set_symbol (Some (snd symbolEvent))).

Definition on_setDecimals (receipt : Receipt.t) : M unit :=
  let! decimalsEvent :=
    lift (decodeLog_setDecimals src20Interface (Receipt.data receipt)) in
  let! decimalsAsset := getAsset (fst decimalsEvent) in
  assign decimalsAsset (Asset.set_decimals (Some (snd decimalsEvent))).

(** [switch (receipt.rb)]: strict equality with each of the three codes
    in turn; no default case. *)
Definition on_log_data (receipt : Receipt.t) : M unit :=
  match Receipt.rb receipt with
  | Some rb =>
      if rb =? setNameEventId then on_setName receipt
      else if rb =? setSymbolEventId then on_setSymbol receipt
      else if rb =? setDecimalsEventId then on_setDecimals receipt
      else ret tt
  | None => ret tt
  end.

(** The body of the inner loop: the two [if] statements in sequence. *)
Definition on_receipt (receipt : Receipt.t) : M unit :=
  let! _ :=
    if ReceiptType_eqb (Receipt.receiptType receipt) MINT
    then on_mint receipt else ret tt in
  if ReceiptType_eqb (Receipt.receiptType receipt) LOG_DATA
  then on_log_data receipt else ret tt.

(** The two nested loops over [blocks] and [block.receipts]. *)
Definition process (blocks : list Block.t) : M unit :=
  forEach blocks (fun block => forEach (Block.receipts block) on_receipt).

(** The function passed to [run]: the loops, then one bulk upsert.  The
    handler does not await the promise of [upsert]; the call and its
    effect on the rows are recorded where it is made. *)
Definition handler (blocks : list Block.t) : M unit :=
  let! _ := process blocks in
  let! records := Object_values in
  upsert records.

End Handler.

(** The world at the start of a batch: the table and the heap are empty. *)
Definition batch_start (rows : list Asset.t) : World :=
  {| store := rows; heap := []; assetsById := [];
     findOne_calls := []; upsert_calls := []; console := [] |}.

(** The batch handler run against a store holding [rows]. *)
Definition run (abi : Interface) (rows : list Asset.t) (blocks : list Block.t)
  : Outcome unit * World :=
  handler abi blocks (batch_start rows).

(* ===================================================================== *)
(** ** Vocabulary of the properties *)
(* ===================================================================== *)

(** Flattening of a batch: the receipts in the order the two loops visit
    them. *)
Definition receipts_of (blocks : list Block.t) : list Receipt.t :=
  concat (map Block.receipts blocks).

(** The record the batch holds for identifier [k]: the instance entered in
    the table, or else the record [getAsset] would start from (the stored
    row, or a new record). *)
Definition view (w : World) (k : string) : Asset.t :=
  match get_prop k (assetsById w) with
  | Some r => default (Asset.new k) (heap w !! r)
  | None => default (Asset.new k) (find_row k (store w))
  end.

(** Consistency of the table with the heap: keys are entered once, every
    reference is allocated, distinct keys name distinct instances, and the
    instance entered under [k] has [id = k]. *)
Record wf (w : World) : Prop := {
  wf_keys : NoDup (map fst (assetsById w));
  wf_bound : forall k r,
    get_prop k (assetsById w) = Some r -> (r < length (heap w))%nat;
  wf_inj : forall k1 k2 r,
    get_prop k1 (assetsById w) = Some r ->
    get_prop k2 (assetsById w) = Some r -> k1 = k2;
  wf_id : forall k r a,
    get_prop k (assetsById w) = Some r ->
    heap w !! r = Some a -> Asset.id a = k
}.

(** Receipt [r] is a [setName] (resp. [setSymbol], [setDecimals]) event for
    identifier [k] carrying value [v]. *)
Definition is_setName (abi : Interface) (r : Receipt.t) (k v : string) : Prop :=
  Receipt.receiptType r = LOG_DATA /\
  Receipt.rb r = Some setNameEventId /\
  decodeLog_setName abi (Receipt.data r) = Returns (k, v).

Definition is_setSymbol (abi : Interface) (r : Receipt.t) (k v : string) : Prop :=
  Receipt.receiptType r = LOG_DATA /\
  Receipt.rb r = Some setSymbolEventId /\
  decodeLog_setSymbol abi (Receipt.data r) = Returns (k, v).

Definition is_mint (r : Receipt.t) (c s : string) : Prop :=
  Receipt.receiptType r = MINT /\
  Receipt.contract r = Some c /\
  Receipt.subId r = Some s.

(** What a receipt of a given kind may change in a record. *)
Definition writes_within (r : Receipt.t) (a a' : Asset.t) : Prop :=
  Asset.id a' = Asset.id a /\
  (Receipt.receiptType r = MINT ->
     Asset.name a' = Asset.name a /\
     Asset.symbol a' = Asset.symbol a /\
     Asset.decimals a' = Asset.decimals a) /\
  (Receipt.receiptType r = LOG_DATA ->
     Asset.contractId a' = Asset.contractId a /\
     Asset.subId a' = Asset.subId a /\
     (Receipt.rb r <> Some setNameEventId -> Asset.name a' = Asset.name a) /\
     (Receipt.rb r <> Some setSymbolEventId ->
        Asset.symbol a' = Asset.symbol a) /\
     (Receipt.rb r <> Some setDecimalsEventId ->
        Asset.decimals a' = Asset.decimals a)) /\
  (Receipt.receiptType r <> MINT -> Receipt.receiptType r <> LOG_DATA ->
     a' = a).

(** The update of the held record that a receipt stands for: the identifier
    it addresses and the fields it writes; [None] for a receipt that is
    ignored. *)
Definition effect (abi : Interface) (r : Receipt.t)
  : Outcome (option (string * (Asset.t -> Asset.t))) :=
  match Receipt.receiptType r with
  | MINT =>
      match Receipt.contract r, Receipt.subId r with
      | Some c, Some s =>
          Returns (Some (getAssetId c s,
                         fun a => Asset.set_subId (Some s)
                                    (Asset.set_contractId (Some c) a)))
      | _, _ => Throws TypeError
      end
  | LOG_DATA =>
      match Receipt.rb r with
      | Some rb =>
          if rb =? setNameEventId then
            match decodeLog_setName abi (Receipt.data r) with
            | Returns e => Returns (Some (fst e, Asset.set_name (Some (snd e))))
            | Throws x => Throws x
            end
          else if rb =? setSymbolEventId then
            match decodeLog_setSymbol abi (Receipt.data r) with
            | Returns e => Returns (Some (fst e, Asset.set_symbol (Some (snd e))))
            | Throws x => Throws x
            end
          else if rb =? setDecimalsEventId then
            match decodeLog_setDecimals abi (Receipt.data r) with
            | Returns e =>
                Returns (Some (fst e, Asset.set_decimals (Some (snd e))))
            | Throws x => Throws x
            end
          else Returns None
      | None => Returns None
      end
  | _ => Returns None
  end.

(** World [w'] is world [w] after the record held for [t] went through
    [f]: every other record, the store and the calls made to it are as
    before, the table has only grown, by [t] at most, and an instance that
    existed is as it was or went through [f]. *)
Record touched (w w' : World) (t : string) (f : Asset.t -> Asset.t) : Prop := {
  touched_view : forall k,
    view w' k = if String.eqb k t then f (view w t) else view w k;
  touched_store : store w' = store w;
  touched_upsert : upsert_calls w' = upsert_calls w;
  touched_target : get_prop t (assetsById w') <> None;
  touched_others : forall k,
    k <> t -> get_prop k (assetsById w') = get_prop k (assetsById w);
  touched_kept : forall k,
    get_prop k (assetsById w) <> None ->
    get_prop k (assetsById w') = get_prop k (assetsById w);
  touched_heap : forall ref a,
    heap w !! ref = Some a ->
    heap w' !! ref = Some a \/ heap w' !! ref = Some (f a)
}.

(** The world after the record held for [t] went through [f], in closed
    form: the instance in the table is rewritten in place, or else the
    merge base is fetched or created, entered in the table and rewritten. *)
Definition touch (t : string) (f : Asset.t -> Asset.t) (w : World) : World :=
  match get_prop t (assetsById w) with
  | Some r => snd (assign r f w)
  | None =>
      {| store := store w;
         heap := heap w ++ [f (default (Asset.new t) (find_row t (store w)))];
         assetsById := set_prop t (length (heap w)) (assetsById w);
         findOne_calls := findOne_calls w ++ [t];
         upsert_calls := upsert_calls w;
         console := console w |}
  end.

(** What a receipt prints: the decoded event of a [setName] log. *)
Definition printed (abi : Interface) (r : Receipt.t) : list (string * string) :=
  match Receipt.receiptType r, Receipt.rb r with
  | LOG_DATA, Some rb =>
      if rb =? setNameEventId then
        match decodeLog_setName abi (Receipt.data r) with
        | Returns e => [e]
        | Throws _ => []
        end
      else []
  | _, _ => []
  end.

Definition print (lines : list (string * string)) (w : World) : World :=
  {| store := store w; heap := heap w; assetsById := assetsById w;
     findOne_calls := findOne_calls w; upsert_calls := upsert_calls w;
     console := console w ++ lines |}.

(** A computation that never removes or redirects an entry of the table,
    whatever its outcome. *)
Definition keeps_table {A} (m : M A) : Prop :=
  forall w o w' k ref,
    m w = (o, w') ->
    get_prop k (assetsById w) = Some ref ->
    get_prop k (assetsById w') = Some ref.

(** Lowercase hexadecimal digits only. *)
Definition lower_hex_digit (c : ascii) : bool :=
  let n := Z.of_N (N_of_ascii c) in
  ((48 <=? n) && (n <=? 57)) || ((97 <=? n) && (n <=? 102)).

Fixpoint lower_hex (s : string) : bool :=
  match s with
  | EmptyString => true
  | String c rest => lower_hex_digit c && lower_hex rest
  end.

(* ===================================================================== *)
(** ** Sample data for the examples *)
(* ===================================================================== *)

Module Sample.

(** A decoder given by a table from payloads to decoded values; a payload
    outside the table, or an absent one, does not decode. *)
Definition decode_with {V} (table : list (string * (string * V)))
  (data : option string) : Outcome (string * V) :=
  match data with
  | Some d =>
      match find (fun e => String.eqb (fst e) d) table with
      | Some e => Returns (snd e)
      | None => Throws DecodeError
      end
  | None => Throws DecodeError
  end.

(** Thirty-two bytes [0xAA] and thirty-two bytes [0xBB], as the stream
    delivers them. *)
Definition contractAA : string := ("0x" ++ Buffer.to_hex (repeat 170 32))%string.
Definition subBB : string := ("0x" ++ Buffer.to_hex (repeat 187 32))%string.

Definition assetAB : string := getAssetId contractAA subBB.

Definition abi : Interface := {|
  decodeLog_setName :=
    decode_with [("name:Token", (assetAB, "Token"));
                 ("name:Coin", (assetAB, "Coin"))]%string;
  decodeLog_setSymbol := decode_with [("symbol:TKN", (assetAB, "TKN"))]%string;
  decodeLog_setDecimals := decode_with [("decimals:9", (assetAB, 9))]%string
|}.

Definition mint : Receipt.t :=
  {| Receipt.receiptType := MINT; Receipt.contract := Some contractAA;
     Receipt.subId := Some subBB; Receipt.rb := None;
     Receipt.data := None |}.

Definition log_data (rb : Z) (payload : string) : Receipt.t :=
  {| Receipt.receiptType := LOG_DATA; Receipt.contract := Some contractAA;
     Receipt.subId := None; Receipt.rb := Some rb;
     Receipt.data := Some payload |}.

Definition stored : Asset.t :=
  {| Asset.id := assetAB; Asset.contractId := Some contractAA;
     Asset.subId := Some subBB; Asset.name := None;
     Asset.symbol := None; Asset.decimals := None |}.

Definition block (rs : list Receipt.t) : Block.t := {| Block.receipts := rs |}.

(** A batch whose second receipt carries a payload that does not decode. *)
Definition aborting_batch : list Block.t :=
  [block [mint; log_data setNameEventId "malformed"]].

(** The end-to-end scenario: a mint, then the name. *)
Definition mint_then_name : list Block.t :=
  [block [mint; log_data setNameEventId "name:Token"]].

(** A batch with the symbol only. *)
Definition symbol_only : list Block.t :=
  [block [log_data setSymbolEventId "symbol:TKN"]].

(** The same three events in two orders, over one and over two blocks. *)
Definition name_symbol_mint : list Block.t :=
  [block [log_data setNameEventId "name:Token";
          log_data setSymbolEventId "symbol:TKN"; mint]].

Definition mint_name_symbol : list Block.t :=
  [block [mint]; block [log_data setNameEventId "name:Token";
                        log_data setSymbolEventId "symbol:TKN"]].

(** Two names for one asset, a symbol in between and a mint after. *)
Definition renamed : list Block.t :=
  [block [log_data setNameEventId "name:Token";
          log_data setSymbolEventId "symbol:TKN"];
   block [log_data setNameEventId "name:Coin"; mint]].

End Sample.

(* ===================================================================== *)
(** ** Vocabulary of the batch as a whole *)
(* ===================================================================== *)

(** [s.toLowerCase()] on the letters [A] to [Z]. *)
Definition lower_char (c : ascii) : ascii :=
  let n := Z.of_N (N_of_ascii c) in
  if (65 <=? n) && (n <=? 90) then ascii_of_N (Z.to_N (n + 32)) else c.

Fixpoint toLowerCase (s : string) : string :=
  match s with
  | EmptyString => EmptyString
  | String c rest => String (lower_char c) (toLowerCase rest)
  end.

(** The record [getAsset] starts from when [k] is first referenced in a
    batch run against [rows]. *)
Definition merge_base (rows : list Asset.t) (k : string) : Asset.t :=
  default (Asset.new k) (find_row k rows).

(** Receipt [r] addresses identifier [k]. *)
Definition addresses (abi : Interface) (k : string) (r : Receipt.t) : bool :=
  match effect abi r with
  | Returns (Some (t, _)) => String.eqb t k
  | _ => false
  end.

Definition addressed (abi : Interface) (k : string) (rs : list Receipt.t)
  : bool :=
  existsb (addresses abi k) rs.

(** What receipt [r] does to the record of identifier [k]: its setter when
    it addresses [k], nothing otherwise. *)
Definition apply_to (abi : Interface) (k : string) (r : Receipt.t)
  (a : Asset.t) : Asset.t :=
  match effect abi r with
  | Returns (Some (t, f)) => if String.eqb t k then f a else a
  | _ => a
  end.

(** The record of [k] after the receipts [rs], in their order. *)
Definition merged (abi : Interface) (k : string) (rs : list Receipt.t)
  (a : Asset.t) : Asset.t :=
  fold_left (fun x r => apply_to abi k r x) rs a.

(** The identifiers addressed, in the order of their first reference. *)
Definition note (abi : Interface) (keys : list string) (r : Receipt.t)
  : list string :=
  match effect abi r with
  | Returns (Some (t, _)) =>
      if existsb (String.eqb t) keys then keys else keys ++ [t]
  | _ => keys
  end.

Definition targets (abi : Interface) (rs : list Receipt.t) : list string :=
  fold_left (note abi) rs [].

(** The receipt makes its handler throw. *)
Definition fails (abi : Interface) (r : Receipt.t) : bool :=
  match effect abi r with
  | Throws _ => true
  | Returns _ => false
  end.

(** The receipt is skipped by both [if] statements or by the [switch]. *)
Definition ignored (r : Receipt.t) : Prop :=
  (Receipt.receiptType r <> MINT /\ Receipt.receiptType r <> LOG_DATA) \/
  (Receipt.receiptType r = LOG_DATA /\
   Receipt.rb r <> Some setNameEventId /\
   Receipt.rb r <> Some setSymbolEventId /\
   Receipt.rb r <> Some setDecimalsEventId).

(** One lookup and one instance per entry of the table, in the order of
    the entries. *)
Definition tidy (w : World) : Prop :=
  findOne_calls w = map fst (assetsById w) /\
  length (heap w) = length (assetsById w).

(** Field assignments in normal form: for each field, the value written
    last, if any. *)
Record Patch := {
  p_contractId : option (option string);
  p_subId : option (option string);
  p_name : option (option string);
  p_symbol : option (option string);
  p_decimals : option (option Z)
}.

Definition patched {A} (p : option A) (old : A) : A :=
  match p with
  | Some v => v
  | None => old
  end.

Definition apply_patch (p : Patch) (a : Asset.t) : Asset.t :=
  {| Asset.id := Asset.id a;
     Asset.contractId := patched (p_contractId p) (Asset.contractId a);
     Asset.subId := patched (p_subId p) (Asset.subId a);
     Asset.name := patched (p_name p) (Asset.name a);
     Asset.symbol := patched (p_symbol p) (Asset.symbol a);
     Asset.decimals := patched (p_decimals p) (Asset.decimals a) |}.

Definition later {A} (p q : option A) : option A :=
  match q with
  | Some v => Some v
  | None => p
  end.

(** [p], then [q]. *)
Definition patch_then (p q : Patch) : Patch :=
  {| p_contractId := later (p_contractId p) (p_contractId q);
     p_subId := later (p_subId p) (p_subId q);
     p_name := later (p_name p) (p_name q);
     p_symbol := later (p_symbol p) (p_symbol q);
     p_decimals := later (p_decimals p) (p_decimals q) |}.

Definition no_patch : Patch :=
  {| p_contractId := None; p_subId := None; p_name := None;
     p_symbol := None; p_decimals := None |}.

(** More sample data: a mint of another asset. *)
Module Fixture.

Definition other_mint : Receipt.t :=
  {| Receipt.receiptType := MINT; Receipt.contract := Some "0x01"%string;
     Receipt.subId := Some "0x02"%string; Receipt.rb := None;
     Receipt.data := None |}.

Definition two_assets : list Block.t :=
  [Sample.block [Sample.mint; other_mint;
                 Sample.log_data setNameEventId "name:Token"]].

Definition two_assets_swapped : list Block.t :=
  [Sample.block [other_mint; Sample.mint;
                 Sample.log_data setNameEventId "name:Token"]].

End Fixture.

(* ===================================================================== *)
(** ** [getAssetId] on UTF-16 code units *)
(* ===================================================================== *)

(** The code units of a string of characters below U+0100. *)
Definition units_of_string (s : string) : list Z :=
  map (fun c => Z.of_N (N_of_ascii c)) (list_ascii_of_string s).

(** [Buffer.from(s, 'hex')] on any string, given by its code units: Node
    looks up the low byte of each code unit, so a unit above U+00FF counts
    as the character of its low byte. *)
Module UTF16.

Definition unhex (u : Z) : option Z :=
  Buffer.unhex (ascii_of_N (Z.to_N (Z.land u 255))).

Fixpoint from_hex (us : list Z) : list Z :=
  match us with
  | a :: b :: rest =>
      match unhex a, unhex b with
      | Some hi, Some lo => (16 * hi + lo) :: from_hex rest
      | _, _ => []
      end
  | _ => []
  end.

(** Code units that [from_hex] decodes completely. *)
Fixpoint well_formed (us : list Z) : bool :=
  match us with
  | [] => true
  | a :: b :: rest =>
      match unhex a, unhex b with
      | Some _, Some _ => well_formed rest
      | _, _ => false
      end
  | [_] => false
  end.

End UTF16.

(** [getAssetId(contractId, subId)] on any two strings, given by their code
    units; [s.slice(2)] drops the first two units. *)
Definition getAssetId_utf16 (contractId subId : list Z) : string :=
  ("0x" ++ crypto.digest_hex
             (crypto.update crypto.createHash_sha256
                (UTF16.from_hex (drop 2 contractId ++ drop 2 subId))))%string.

(** The identifier a receipt hands to [getAsset], when it gets that far:
    the derived identifier of a mint, the [asset.bits] of a decoded log. *)
Definition target (abi : Interface) (r : Receipt.t) : option string :=
  match Receipt.receiptType r with
  | MINT =>
      match Receipt.contract r, Receipt.subId r with
      | Some c, Some s => Some (getAssetId c s)
      | _, _ => None
      end
  | LOG_DATA =>
      match Receipt.rb r with
      | Some rb =>
          if rb =? setNameEventId then
            match decodeLog_setName abi (Receipt.data r) with
            | Returns e => Some (fst e)
            | Throws _ => None
            end
          else if rb =? setSymbolEventId then
            match decodeLog_setSymbol abi (Receipt.data r) with
            | Returns e => Some (fst e)
            | Throws _ => None
            end
          else if rb =? setDecimalsEventId then
            match decodeLog_setDecimals abi (Receipt.data r) with
            | Returns e => Some (fst e)
            | Throws _ => None
            end
          else None
      | None => None
      end
  | _ => None
  end.

(** Sample data: two assets held in memory, the sample asset minted and
    named and another one minted, and a log that renames the first. *)
Module Held.

Definition other_asset : string := getAssetId "0x01" "0x02".

Definition world : World :=
  snd (forEach [Sample.mint; Sample.log_data setNameEventId "name:Token";
                Fixture.other_mint]
         (on_receipt Sample.abi) (batch_start [])).

Definition rename : Receipt.t := Sample.log_data setNameEventId "name:Coin".

End Held.

(* ===================================================================== *)
(** ** The identity deriver: facts *)
(* ===================================================================== *)

(** SHA-256 on the test vectors of FIPS 180-4: the message [abc] and the
    empty message. *)
Example sha256_abc :
  Buffer.to_hex (SHA256.digest [97; 98; 99]) =
  "ba7816bf8f01cfea414140de5dae2223b00361a396177a9cb410ff61f20015ad"%string.
Proof. vm_compute. reflexivity. Qed.

Example sha256_empty :
  Buffer.to_hex (SHA256.digest []) =
  "e3b0c44298fc1c149afbf4c8996fb92427ae41e4649b934ca495991b7852b855"%string.
Proof. vm_compute. reflexivity. Qed.

(** A message of two blocks after padding. *)
Example sha256_two_blocks :
  Buffer.to_hex (SHA256.digest (repeat 170 32 ++ repeat 187 32)) =
  "e2d80f78d79027556d6619a1400605abbdca6bb6eb24e0831e33ecd5466fa5f6"%string.
Proof. vm_compute. reflexivity. Qed.

Lemma to_hex_length (bs : list Z) :
  String.length (Buffer.to_hex bs) = (2 * length bs)%nat.
Proof. induction bs as [|b bs IH]; simpl; [reflexivity | rewrite IH; lia]. Qed.

Lemma digest_length (msg : list Z) : length (SHA256.digest msg) = 32%nat.
Proof. unfold SHA256.digest, SHA256.bytes_of_word. reflexivity. Qed.

Lemma land_255_range (x : Z) : 0 <= Z.land x 255 < 256.
Proof.
  change 255 with (Z.ones 8). rewrite Z.land_ones by lia.
  apply Z.mod_pos_bound. lia.
Qed.

Lemma digest_bytes (msg : list Z) :
  Forall (fun b => 0 <= b < 256) (SHA256.digest msg).
Proof.
  unfold SHA256.digest, SHA256.bytes_of_word. simpl.
  repeat (apply Forall_cons; split; [apply land_255_range|]).
  apply Forall_nil. exact I.
Qed.

Lemma hex_digit_lower (n : Z) :
  0 <= n < 16 -> lower_hex_digit (Buffer.hex_digit n) = true.
Proof.
  intros Hn.
  assert (Hall : forallb (fun i => lower_hex_digit
                                     (Buffer.hex_digit (Z.of_nat i)))
                         (seq 0 16) = true) by reflexivity.
  rewrite forallb_forall in Hall. rewrite <- (Z2Nat.id n) by lia.
  apply Hall, in_seq. lia.
Qed.

Lemma to_hex_lower (bs : list Z) :
  Forall (fun b => 0 <= b < 256) bs -> lower_hex (Buffer.to_hex bs) = true.
Proof.
  induction 1 as [|b bs Hb _ IH]; simpl; [reflexivity|].
  rewrite IH, !andb_true_r. apply andb_true_intro. split.
  - apply hex_digit_lower. rewrite Z.shiftr_div_pow2 by lia.
    change (2 ^ 4) with 16. split; [apply Z.div_pos; lia|].
    apply Z.div_lt_upper_bound; lia.
  - apply hex_digit_lower. change 15 with (Z.ones 4).
    rewrite Z.land_ones by lia. apply Z.mod_pos_bound. lia.
Qed.

(** Decoding goes pair by pair, so a statement about all strings is proved
    for a string and for the same string behind one more character. *)
Lemma from_hex_app_aux (p q : string) :
  (well_formed_hex p = true ->
   Buffer.from_hex (p ++ q) = Buffer.from_hex p ++ Buffer.from_hex q) /\
  (forall a, well_formed_hex (String a p) = true ->
   Buffer.from_hex (String a p ++ q) =
   Buffer.from_hex (String a p) ++ Buffer.from_hex q).
Proof.
  induction p as [|b p [IH0 IH1]].
  - split; [reflexivity | intros a H; discriminate H].
  - split.
    + intros H. apply IH1. exact H.
    + intros a H. simpl in H |- *.
      destruct (Buffer.unhex a); [|discriminate H].
      destruct (Buffer.unhex b); [|discriminate H].
      simpl. f_equal. apply IH0. exact H.
Qed.

(** On well-formed input the bytes hashed are the bytes of the contract
    identifier followed by those of the sub-identifier. *)
Lemma from_hex_app (p q : string) :
  well_formed_hex p = true ->
  Buffer.from_hex (p ++ q) = Buffer.from_hex p ++ Buffer.from_hex q.
Proof. apply from_hex_app_aux. Qed.

(** Malformed input is not rejected: decoding ends, without an error, at the
    first pair that is not two hexadecimal digits, and drops a last single
    character. *)
Lemma from_hex_stops (p q : string) (a b : ascii) :
  well_formed_hex p = true ->
  Buffer.unhex a = None \/ Buffer.unhex b = None ->
  Buffer.from_hex (p ++ String a (String b q)) = Buffer.from_hex p.
Proof.
  intros Hp Hab. rewrite from_hex_app by exact Hp. simpl.
  destruct Hab as [-> | ->]; [|destruct (Buffer.unhex a)]; apply app_nil_r.
Qed.

Lemma from_hex_odd (p : string) (a : ascii) :
  well_formed_hex p = true ->
  Buffer.from_hex (p ++ String a EmptyString) = Buffer.from_hex p.
Proof. intros Hp. rewrite from_hex_app by exact Hp. apply app_nil_r. Qed.

Lemma getAssetId_shape (contractId subId : string) :
  getAssetId contractId subId =
  ("0x" ++ Buffer.to_hex
     (SHA256.digest (Buffer.from_hex (slice 2 contractId ++ slice 2 subId))))%string.
Proof. reflexivity. Qed.

Lemma getAssetId_well_formed (contractId subId : string) :
  well_formed_hex (slice 2 contractId) = true ->
  getAssetId contractId subId =
  ("0x" ++ Buffer.to_hex
     (SHA256.digest (Buffer.from_hex (slice 2 contractId)
                       ++ Buffer.from_hex (slice 2 subId))))%string.
Proof. intros H. rewrite getAssetId_shape, from_hex_app by exact H. reflexivity. Qed.

(** The identifier of the sample asset. *)
Lemma assetAB_value :
  Sample.assetAB =
  "0xe2d80f78d79027556d6619a1400605abbdca6bb6eb24e0831e33ecd5466fa5f6"%string.
Proof. vm_compute. reflexivity. Qed.

Lemma assetAB_digest :
  Sample.assetAB =
  ("0x" ++ Buffer.to_hex (SHA256.digest (repeat 170 32 ++ repeat 187 32)))%string.
Proof. vm_compute. reflexivity. Qed.

(** The call of [getAssetId] in the handler rejects nothing: it returns,
    without touching the world, the string ["0x"] followed by the 64
    lowercase hexadecimal digits of the SHA-256 digest of the bytes that
    [Buffer.from(.., 'hex')] decodes from the two inputs stripped of their
    first two characters and concatenated. *)
Lemma call_getAssetId_returns (contractId subId : string) (w : World) :
  exists digest : list Z,
    call_getAssetId (Some contractId) (Some subId) w
      = (Returns ("0x" ++ Buffer.to_hex digest)%string, w) /\
    digest = SHA256.digest
               (Buffer.from_hex (slice 2 contractId ++ slice 2 subId)) /\
    length digest = 32%nat /\
    String.length (getAssetId contractId subId) = 66%nat /\
    lower_hex (Buffer.to_hex digest) = true.
Proof.
  eexists. split; [reflexivity|]. split; [reflexivity|].
  split; [apply digest_length|]. split.
  - rewrite getAssetId_shape. cbn [String.append String.length].
    rewrite to_hex_length, digest_length. reflexivity.
  - apply to_hex_lower, digest_bytes.
Qed.

(** C6 (as stated) fails: both inputs are malformed, [zz] not being
    hexadecimal and [1] being of odd length, and yet the call returns an
    identifier, the digest of the empty byte string. *)
Lemma getAssetId_malformed_returns :
  well_formed_hex (slice 2 "0xzz") = false /\
  well_formed_hex (slice 2 "0x1") = false /\
  call_getAssetId (Some "0xzz"%string) (Some "0x1"%string) (batch_start [])
  = (Returns
       "0xe3b0c44298fc1c149afbf4c8996fb92427ae41e4649b934ca495991b7852b855"%string,
     batch_start []).
Proof. vm_compute. repeat split. Qed.

(** C9: [getAssetId] is deterministic.  Two invocations on the same pair of
    strings, in whatever two states of the world, return the same identifier
    and leave the world as it was. *)
Theorem getAssetId_deterministic (contractId subId : string) (w1 w2 : World) :
  exists id : string,
    call_getAssetId (Some contractId) (Some subId) w1 = (Returns id, w1) /\
    call_getAssetId (Some contractId) (Some subId) w2 = (Returns id, w2) /\
    id = getAssetId contractId subId.
Proof. exists (getAssetId contractId subId). repeat split. Qed.

(* ===================================================================== *)
(** ** The table, the store and the monad: basic facts *)
(* ===================================================================== *)

Lemma bind_Returns {A B} (m : M A) (k : A -> M B) (w w' : World) (a : A) :
  m w = (Returns a, w') -> bind m k w = k a w'.
Proof. intros H. unfold bind. rewrite H. reflexivity. Qed.

Lemma bind_Throws {A B} (m : M A) (k : A -> M B) (w w' : World) (e : Exn) :
  m w = (Throws e, w') -> bind m k w = (Throws e, w').
Proof. intros H. unfold bind. rewrite H. reflexivity. Qed.

Lemma forEach_app {A} (xs ys : list A) (body : A -> M unit) (w : World) :
  forEach (xs ++ ys) body w =
  (let! _ := forEach xs body in forEach ys body) w.
Proof.
  revert w. induction xs as [|x xs IH]; intros w; simpl.
  - reflexivity.
  - unfold bind. destruct (body x w) as [[[]|e] w1]; [|reflexivity].
    rewrite IH. reflexivity.
Qed.

Lemma get_set_prop (k k' : string) (v : nat) (o : list (string * nat)) :
  get_prop k' (set_prop k v o) =
  if String.eqb k' k then Some v else get_prop k' o.
Proof.
  induction o as [|[k0 v0] o IH]; simpl.
  - rewrite String.eqb_sym. reflexivity.
  - destruct (String.eqb_spec k0 k) as [->|Hne]; simpl.
    + rewrite (String.eqb_sym k' k). destruct (String.eqb k k'); reflexivity.
    + destruct (String.eqb_spec k0 k') as [->|Hne'].
      * destruct (String.eqb_spec k' k); [contradiction | reflexivity].
      * exact IH.
Qed.

Lemma get_set_prop_eq (k : string) (v : nat) (o : list (string * nat)) :
  get_prop k (set_prop k v o) = Some v.
Proof. rewrite get_set_prop, String.eqb_refl. reflexivity. Qed.

Lemma get_set_prop_ne (k k' : string) (v : nat) (o : list (string * nat)) :
  k' <> k -> get_prop k' (set_prop k v o) = get_prop k' o.
Proof.
  intros Hne. rewrite get_set_prop.
  destruct (String.eqb_spec k' k); [contradiction | reflexivity].
Qed.

(** Writing again what the table already holds changes nothing. *)
Lemma set_prop_same (k : string) (v : nat) (o : list (string * nat)) :
  get_prop k o = Some v -> set_prop k v o = o.
Proof.
  induction o as [|[k0 v0] o IH]; simpl; [discriminate|].
  destruct (String.eqb k0 k); intros H.
  - injection H as ->. reflexivity.
  - rewrite IH by exact H. reflexivity.
Qed.

Lemma get_prop_None (k : string) (o : list (string * nat)) :
  get_prop k o = None <-> ~ In k (map fst o).
Proof.
  induction o as [|[k0 v0] o IH]; simpl.
  - tauto.
  - destruct (String.eqb_spec k0 k) as [->|Hne].
    + split; [discriminate | intros H; exfalso; apply H; left; reflexivity].
    + rewrite IH. tauto.
Qed.

Lemma get_prop_In (k : string) (v : nat) (o : list (string * nat)) :
  NoDup (map fst o) -> In (k, v) o -> get_prop k o = Some v.
Proof.
  induction o as [|[k0 v0] o IH]; simpl; [tauto|].
  rewrite NoDup_cons. intros [Hk0 Hnd] [Heq|Hin].
  - injection Heq as -> ->. rewrite String.eqb_refl. reflexivity.
  - destruct (String.eqb_spec k0 k) as [->|Hne]; [|auto].
    exfalso. apply Hk0. apply list_elem_of_In.
    change k with (fst (k, v)). apply in_map. exact Hin.
Qed.

Lemma set_prop_keys_new (k : string) (v : nat) (o : list (string * nat)) :
  get_prop k o = None -> set_prop k v o = o ++ [(k, v)].
Proof.
  induction o as [|[k0 v0] o IH]; simpl; [reflexivity|].
  destruct (String.eqb k0 k); [discriminate|].
  intros H. rewrite IH by exact H. reflexivity.
Qed.

Lemma find_row_id (k : string) (rows : list Asset.t) (a : Asset.t) :
  find_row k rows = Some a -> Asset.id a = k.
Proof.
  unfold find_row. intros H. apply find_some in H as [_ H].
  unfold has_id in H. apply String.eqb_eq. exact H.
Qed.

Lemma find_upsert_row (a : Asset.t) (rows : list Asset.t) :
  find_row (Asset.id a) (upsert_row a rows) = Some a.
Proof.
  unfold find_row. induction rows as [|r rows IH]; simpl.
  - unfold has_id. rewrite String.eqb_refl. reflexivity.
  - destruct (has_id (Asset.id a) r) eqn:Hr; simpl.
    + unfold has_id. rewrite String.eqb_refl. reflexivity.
    + rewrite Hr. exact IH.
Qed.

Lemma find_upsert_row_ne (k : string) (a : Asset.t) (rows : list Asset.t) :
  Asset.id a <> k -> find_row k (upsert_row a rows) = find_row k rows.
Proof.
  intros Hne. unfold find_row.
  assert (Ha : has_id k a = false).
  { unfold has_id. destruct (String.eqb_spec (Asset.id a) k); [contradiction | reflexivity]. }
  induction rows as [|r rows IH]; simpl.
  - rewrite Ha. reflexivity.
  - destruct (has_id (Asset.id a) r) eqn:Hr; simpl.
    + rewrite Ha. unfold has_id in Hr |- *. apply String.eqb_eq in Hr.
      rewrite Hr. destruct (String.eqb_spec (Asset.id a) k); [contradiction | reflexivity].
    + destruct (has_id k r); [reflexivity | exact IH].
Qed.

(* ===================================================================== *)
(** ** [getAsset] in closed form *)
(* ===================================================================== *)

Lemma getAsset_hit (assetId : string) (r : nat) (w : World) :
  get_prop assetId (assetsById w) = Some r ->
  getAsset assetId w = (Returns r, w).
Proof.
  intros H. unfold getAsset, bind, read_assetsById, write_assetsById, ret.
  rewrite H. simpl. rewrite set_prop_same by exact H.
  destruct w; reflexivity.
Qed.

Lemma getAsset_miss (assetId : string) (w : World) :
  get_prop assetId (assetsById w) = None ->
  getAsset assetId w =
  (Returns (length (heap w)),
   {| store := store w;
      heap := heap w ++ [default (Asset.new assetId)
                                 (find_row assetId (store w))];
      assetsById := set_prop assetId (length (heap w)) (assetsById w);
      findOne_calls := findOne_calls w ++ [assetId];
      upsert_calls := upsert_calls w;
      console := console w |}).
Proof.
  intros H. unfold getAsset, bind, read_assetsById, write_assetsById, ret.
  rewrite H. unfold findOne, bind, alloc, ret. simpl.
  destruct (find_row assetId (store w)); reflexivity.
Qed.

(** [getAsset] never throws, and enters the identifier in the table. *)
Lemma getAsset_returns (assetId : string) (w : World) :
  exists r w', getAsset assetId w = (Returns r, w') /\
               get_prop assetId (assetsById w') = Some r.
Proof.
  destruct (get_prop assetId (assetsById w)) as [r|] eqn:H.
  - exists r, w. split; [apply getAsset_hit|]; exact H.
  - eexists _, _. split; [apply getAsset_miss; exact H|].
    simpl. apply get_set_prop_eq.
Qed.

(* ===================================================================== *)
(** ** The table stays consistent with the heap *)
(* ===================================================================== *)

Lemma wf_batch_start (rows : list Asset.t) : wf (batch_start rows).
Proof.
  split; simpl.
  - apply NoDup_nil. exact I.
  - discriminate.
  - discriminate.
  - discriminate.
Qed.

Lemma view_id (w : World) (k : string) : wf w -> Asset.id (view w k) = k.
Proof.
  intros Hw. unfold view.
  destruct (get_prop k (assetsById w)) as [r|] eqn:Hk.
  - destruct (heap w !! r) as [a|] eqn:Hr; simpl; [|reflexivity].
    eapply wf_id; eassumption.
  - destruct (find_row k (store w)) as [a|] eqn:Hf; simpl; [|reflexivity].
    eapply find_row_id; eassumption.
Qed.

(** [getAsset] materialises the record held for the identifier and changes
    no record. *)
Lemma getAsset_spec (t : string) (w : World) :
  wf w ->
  exists r w',
    getAsset t w = (Returns r, w') /\ wf w' /\
    get_prop t (assetsById w') = Some r /\
    (forall k, view w' k = view w k) /\
    store w' = store w /\ upsert_calls w' = upsert_calls w /\
    (forall k, k <> t ->
       get_prop k (assetsById w') = get_prop k (assetsById w)) /\
    (forall k, get_prop k (assetsById w) <> None ->
       get_prop k (assetsById w') = get_prop k (assetsById w)) /\
    (forall ref a, heap w !! ref = Some a -> heap w' !! ref = Some a).
Proof.
  intros Hw. destruct (get_prop t (assetsById w)) as [r|] eqn:Ht.
  - exists r, w. rewrite (getAsset_hit _ _ _ Ht). repeat split; auto; apply Hw.
  - eexists _, _. split; [apply getAsset_miss; exact Ht|].
    set (base := default (Asset.new t) (find_row t (store w))).
    assert (Hbase : Asset.id base = t).
    { subst base. destruct (find_row t (store w)) eqn:Hf; simpl; [|reflexivity].
      eapply find_row_id; eassumption. }
    assert (Hget : forall k,
               get_prop k (set_prop t (length (heap w)) (assetsById w)) =
               if String.eqb k t then Some (length (heap w))
               else get_prop k (assetsById w)) by (intros; apply get_set_prop).
    split; [|repeat split; simpl].
    + split; simpl.
      * rewrite set_prop_keys_new by exact Ht. rewrite map_app. simpl.
        apply NoDup_app. split; [apply Hw|]. split.
        -- intros x Hx Hx'. apply list_elem_of_In in Hx, Hx'.
           destruct Hx' as [<-|[]]. apply get_prop_None in Ht. contradiction.
        -- apply NoDup_singleton.
      * intros k r. rewrite Hget, length_app. simpl.
        destruct (String.eqb k t).
        -- intros [= <-]. lia.
        -- intros H. apply (wf_bound _ Hw) in H. lia.
      * intros k1 k2 r. rewrite !Hget.
        destruct (String.eqb_spec k1 t) as [->|H1];
          destruct (String.eqb_spec k2 t) as [->|H2]; try reflexivity.
        -- intros [= <-] H. apply (wf_bound _ Hw) in H. lia.
        -- intros H [= <-]. apply (wf_bound _ Hw) in H. lia.
        -- apply Hw.
      * intros k r a. rewrite Hget.
        destruct (String.eqb_spec k t) as [->|Hk].
        -- intros [= <-]. rewrite lookup_app_r by lia.
           rewrite Nat.sub_diag. simpl. intros [= <-]. exact Hbase.
        -- intros H. pose proof (wf_bound _ Hw _ _ H) as Hlt.
           rewrite lookup_app_l by exact Hlt. apply Hw. exact H.
    + apply get_set_prop_eq.
    + intros k. unfold view. simpl. rewrite Hget.
      destruct (String.eqb_spec k t) as [->|Hk].
      * rewrite Ht, lookup_app_r by lia. rewrite Nat.sub_diag. simpl.
        subst base. destruct (find_row t (store w)); reflexivity.
      * destruct (get_prop k (assetsById w)) as [r|] eqn:Hr; [|reflexivity].
        rewrite lookup_app_l by (eapply wf_bound; eassumption). reflexivity.
    + intros k Hk. apply get_set_prop_ne. exact Hk.
    + intros k Hk. rewrite Hget.
      destruct (String.eqb_spec k t) as [->|]; [contradiction | reflexivity].
    + intros ref a Ha. apply lookup_app_l_Some. exact Ha.
Qed.

(** A field assignment through the reference entered for [t] rewrites the
    record held for [t] and no other. *)
Lemma assign_spec (r : nat) (f : Asset.t -> Asset.t) (t : string) (w : World) :
  wf w -> get_prop t (assetsById w) = Some r ->
  (forall a, Asset.id (f a) = Asset.id a) ->
  exists w',
    assign r f w = (Returns tt, w') /\ wf w' /\
    assetsById w' = assetsById w /\
    (forall k, view w' k = if String.eqb k t then f (view w t) else view w k) /\
    store w' = store w /\ upsert_calls w' = upsert_calls w /\
    (forall ref a, heap w !! ref = Some a ->
       heap w' !! ref = Some a \/ heap w' !! ref = Some (f a)).
Proof.
  intros Hw Ht Hf. eexists. split; [reflexivity|].
  split; [|repeat split; simpl].
  - split; simpl.
    + apply Hw.
    + intros k r'. rewrite length_alter. apply Hw.
    + apply Hw.
    + intros k r' a Hk. destruct (decide (r = r')) as [<-|Hne].
      * rewrite list_lookup_alter_eq.
        destruct (heap w !! r) as [a0|] eqn:Hr; simpl; [|discriminate].
        intros [= <-]. rewrite Hf. eapply wf_id; eassumption.
      * rewrite list_lookup_alter_ne by exact Hne. apply Hw. exact Hk.
  - intros k. unfold view. simpl.
    destruct (String.eqb_spec k t) as [->|Hk].
    + rewrite Ht, list_lookup_alter_eq.
      destruct (lookup_lt_is_Some_2 _ _ (wf_bound _ Hw _ _ Ht)) as [a Ha].
      rewrite Ha. reflexivity.
    + destruct (get_prop k (assetsById w)) as [r'|] eqn:Hr'; [|reflexivity].
      rewrite list_lookup_alter_ne; [reflexivity|].
      intros <-. apply Hk. eapply wf_inj; eassumption.
  - intros ref a Ha. destruct (decide (r = ref)) as [<-|Hne].
    + right. rewrite list_lookup_alter_eq, Ha. reflexivity.
    + left. rewrite list_lookup_alter_ne by exact Hne. exact Ha.
Qed.

Lemma assign_assign (r : nat) (f g : Asset.t -> Asset.t) (w : World) :
  (let! _ := assign r f in assign r g) w = assign r (fun a => g (f a)) w.
Proof.
  unfold bind, assign. simpl. rewrite list_alter_alter_eq. reflexivity.
Qed.

(** Fetch-or-create followed by an assignment. *)
Lemma getAsset_assign (t : string) (f : Asset.t -> Asset.t) (w : World) :
  wf w -> (forall a, Asset.id (f a) = Asset.id a) ->
  exists w',
    (let! x := getAsset t in assign x f) w = (Returns tt, w') /\
    wf w' /\ touched w w' t f.
Proof.
  intros Hw Hf.
  destruct (getAsset_spec t w Hw)
    as (r & w1 & Hget & Hw1 & Ht & Hview & Hst & Hup & Hoth & Hkept & Hheap).
  destruct (assign_spec r f t w1 Hw1 Ht Hf)
    as (w2 & Hass & Hw2 & Htab & Hview2 & Hst2 & Hup2 & Hheap2).
  exists w2. split; [|split; [exact Hw2|]].
  - rewrite (bind_Returns _ _ _ _ _ Hget). exact Hass.
  - split.
    + intros k. rewrite Hview2, !Hview. reflexivity.
    + congruence.
    + congruence.
    + rewrite Htab, Ht. discriminate.
    + intros k Hk. rewrite Htab. apply Hoth. exact Hk.
    + intros k Hk. rewrite Htab. apply Hkept. exact Hk.
    + intros ref a Ha. apply Hheap2, Hheap. exact Ha.
Qed.

(* ===================================================================== *)
(** ** Each receipt is one update of one held record *)
(* ===================================================================== *)

Lemma bind_ret_r (m : M unit) (w : World) : (let! _ := m in ret tt) w = m w.
Proof. unfold bind, ret. destruct (m w) as [[[]|e] w']; reflexivity. Qed.

Lemma getAsset_assign_twice (t : string) (f g : Asset.t -> Asset.t) (w : World) :
  (let! x := getAsset t in let! _ := assign x f in assign x g) w =
  (let! x := getAsset t in assign x (fun a => g (f a))) w.
Proof.
  unfold bind at 1 3. destruct (getAsset t w) as [[x|e] w1]; [|reflexivity].
  apply assign_assign.
Qed.

Lemma wf_console_log (e : string * string) (w : World) :
  wf w -> wf (snd (console_log e w)).
Proof. intros [H1 H2 H3 H4]. split; assumption. Qed.

Lemma touched_console_log (e : string * string) (w w' : World) (t : string)
  (f : Asset.t -> Asset.t) :
  touched (snd (console_log e w)) w' t f -> touched w w' t f.
Proof. intros [H1 H2 H3 H4 H5 H6 H7]. split; assumption. Qed.

Lemma ReceiptType_cases (r : Receipt.t) :
  Receipt.receiptType r = MINT \/ Receipt.receiptType r = LOG_DATA \/
  (Receipt.receiptType r <> MINT /\ Receipt.receiptType r <> LOG_DATA).
Proof.
  destruct (Receipt.receiptType r); auto; right; right; split; discriminate.
Qed.

Section Refinement.

Variable abi : Interface.

Lemma on_mint_eq (r : Receipt.t) (c s : string) (w : World) :
  Receipt.contract r = Some c -> Receipt.subId r = Some s ->
  on_mint r w =
  (let! x := getAsset (getAssetId c s) in
   assign x (fun a => Asset.set_subId (Some s)
                        (Asset.set_contractId (Some c) a))) w.
Proof.
  intros Hc Hs. unfold on_mint. rewrite Hc, Hs.
  rewrite <- getAsset_assign_twice. reflexivity.
Qed.

Lemma on_setName_eq (r : Receipt.t) (e : string * string) (w : World) :
  decodeLog_setName abi (Receipt.data r) = Returns e ->
  on_setName abi r w =
  (let! x := getAsset (fst e) in assign x (Asset.set_name (Some (snd e))))
    (snd (console_log e w)).
Proof. intros H. unfold on_setName, bind at 1 2, lift. rewrite H. reflexivity. Qed.

Lemma on_setSymbol_eq (r : Receipt.t) (e : string * string) (w : World) :
  decodeLog_setSymbol abi (Receipt.data r) = Returns e ->
  on_setSymbol abi r w =
  (let! x := getAsset (fst e) in assign x (Asset.set_symbol (Some (snd e)))) w.
Proof. intros H. unfold on_setSymbol, bind at 1, lift. rewrite H. reflexivity. Qed.

Lemma on_setDecimals_eq (r : Receipt.t) (e : string * Z) (w : World) :
  decodeLog_setDecimals abi (Receipt.data r) = Returns e ->
  on_setDecimals abi r w =
  (let! x := getAsset (fst e) in
   assign x (Asset.set_decimals (Some (snd e)))) w.
Proof. intros H. unfold on_setDecimals, bind at 1, lift. rewrite H. reflexivity. Qed.

Lemma on_receipt_MINT (r : Receipt.t) (w : World) :
  Receipt.receiptType r = MINT -> on_receipt abi r w = on_mint r w.
Proof. intros H. unfold on_receipt. rewrite H. simpl. apply bind_ret_r. Qed.

Lemma on_receipt_LOG_DATA (r : Receipt.t) (w : World) :
  Receipt.receiptType r = LOG_DATA ->
  on_receipt abi r w = on_log_data abi r w.
Proof. intros H. unfold on_receipt. rewrite H. reflexivity. Qed.

Lemma on_receipt_other (r : Receipt.t) (w : World) :
  Receipt.receiptType r <> MINT -> Receipt.receiptType r <> LOG_DATA ->
  on_receipt abi r w = (Returns tt, w).
Proof.
  intros H1 H2. unfold on_receipt.
  destruct (Receipt.receiptType r); try reflexivity; contradiction.
Qed.

(** The handler of one receipt refines [effect]: an ignored receipt
    leaves the world as it is, a failing one throws before any change,
    and any other passes the record held for its target through its
    setter. *)
Lemma on_receipt_effect (r : Receipt.t) (w : World) :
  wf w ->
  match effect abi r with
  | Returns None => on_receipt abi r w = (Returns tt, w)
  | Returns (Some (t, f)) =>
      exists w', on_receipt abi r w = (Returns tt, w') /\
                 wf w' /\ touched w w' t f
  | Throws e => on_receipt abi r w = (Throws e, w)
  end.
Proof.
  intros Hw. unfold effect.
  destruct (ReceiptType_cases r) as [Hty|[Hty|[Hty1 Hty2]]].
  2:{ (* LOG_DATA *)
    rewrite Hty, (on_receipt_LOG_DATA _ _ Hty).
    unfold on_log_data. destruct (Receipt.rb r) as [rb|]; [|reflexivity].
    destruct (rb =? setNameEventId).
    { destruct (decodeLog_setName abi (Receipt.data r)) as [e|x] eqn:Hd.
      - rewrite (on_setName_eq _ _ _ Hd).
        destruct (getAsset_assign (fst e) (Asset.set_name (Some (snd e)))
                    _ (wf_console_log e w Hw)) as (w' & Hrun & Hw' & Ht);
          [reflexivity|].
        exists w'. split; [exact Hrun|]. split; [exact Hw'|].
        eapply touched_console_log. exact Ht.
      - unfold on_setName, bind, lift. rewrite Hd. reflexivity. }
    destruct (rb =? setSymbolEventId).
    { destruct (decodeLog_setSymbol abi (Receipt.data r)) as [e|x] eqn:Hd.
      - rewrite (on_setSymbol_eq _ _ _ Hd).
        apply getAsset_assign; [exact Hw | reflexivity].
      - unfold on_setSymbol, bind, lift. rewrite Hd. reflexivity. }
    destruct (rb =? setDecimalsEventId); [|reflexivity].
    destruct (decodeLog_setDecimals abi (Receipt.data r)) as [e|x] eqn:Hd.
    + rewrite (on_setDecimals_eq _ _ _ Hd).
      apply getAsset_assign; [exact Hw | reflexivity].
    + unfold on_setDecimals, bind, lift. rewrite Hd. reflexivity.
  }
  - (* MINT *)
    rewrite Hty, (on_receipt_MINT _ _ Hty).
    destruct (Receipt.contract r) as [c|] eqn:Hc;
      [destruct (Receipt.subId r) as [s|] eqn:Hs|].
    + rewrite (on_mint_eq _ _ _ _ Hc Hs).
      apply getAsset_assign; [exact Hw | reflexivity].
    + unfold on_mint. rewrite Hc, Hs. reflexivity.
    + unfold on_mint. rewrite Hc. reflexivity.
  - (* any other kind *)
    rewrite (on_receipt_other _ _ Hty1 Hty2).
    destruct (Receipt.receiptType r); try reflexivity; contradiction.
Qed.

(** Whatever the outcome, a receipt keeps the table consistent, the store
    and its call log untouched, and the entries of the table in place. *)
Lemma on_receipt_keeps (r : Receipt.t) (w w' : World) (o : Outcome unit) :
  wf w -> on_receipt abi r w = (o, w') ->
  wf w' /\ store w' = store w /\ upsert_calls w' = upsert_calls w /\
  (forall k, get_prop k (assetsById w) <> None ->
     get_prop k (assetsById w') = get_prop k (assetsById w)).
Proof.
  intros Hw Hrun. pose proof (on_receipt_effect r w Hw) as He.
  destruct (effect abi r) as [[[t f]|]|e].
  - destruct He as (w1 & Hrun1 & Hw1 & Ht). rewrite Hrun in Hrun1.
    injection Hrun1 as _ <-. split; [exact Hw1|]. repeat split; apply Ht.
  - rewrite Hrun in He. injection He as _ ->. auto.
  - rewrite Hrun in He. injection He as _ ->. auto.
Qed.

Lemma forEach_keeps (rs : list Receipt.t) (w w' : World) (o : Outcome unit) :
  wf w -> forEach rs (on_receipt abi) w = (o, w') ->
  wf w' /\ store w' = store w /\ upsert_calls w' = upsert_calls w /\
  (forall k, get_prop k (assetsById w) <> None ->
     get_prop k (assetsById w') = get_prop k (assetsById w)).
Proof.
  revert w. induction rs as [|r rs IH]; intros w Hw; simpl.
  - intros [= _ <-]. auto.
  - unfold bind. destruct (on_receipt abi r w) as [[[]|e] w1] eqn:H1.
    + intros H2. destruct (on_receipt_keeps _ _ _ _ Hw H1) as (Hw1 & Hs & Hu & Hk).
      destruct (IH _ Hw1 H2) as (Hw' & Hs' & Hu' & Hk').
      split; [exact Hw'|]. repeat split; try congruence.
      intros k Hne. rewrite Hk', Hk; auto. rewrite Hk; auto.
    + intros [= _ <-]. eapply on_receipt_keeps; eassumption.
Qed.

(** The two nested loops visit the receipts of the batch in order. *)
Lemma process_flat (blocks : list Block.t) (w : World) :
  process abi blocks w = forEach (receipts_of blocks) (on_receipt abi) w.
Proof.
  unfold process, receipts_of. revert w.
  induction blocks as [|b blocks IH]; intros w; simpl; [reflexivity|].
  rewrite forEach_app. unfold bind.
  destruct (forEach (Block.receipts b) (on_receipt abi) w) as [[[]|e] w1];
    [apply IH | reflexivity].
Qed.

End Refinement.

(* ===================================================================== *)
(** ** Entries of the table are permanent *)
(* ===================================================================== *)

Lemma keeps_ret {A} (a : A) : keeps_table (ret a).
Proof. intros w o w' k ref [= _ <-] H. exact H. Qed.

Lemma keeps_throw {A} (e : Exn) : keeps_table (@throw A e).
Proof. intros w o w' k ref [= _ <-] H. exact H. Qed.

Lemma keeps_lift {A} (x : Outcome A) : keeps_table (lift x).
Proof. intros w o w' k ref [= _ <-] H. exact H. Qed.

Lemma keeps_bind {A B} (m : M A) (f : A -> M B) :
  keeps_table m -> (forall a, keeps_table (f a)) -> keeps_table (bind m f).
Proof.
  intros Hm Hf w o w' k ref. unfold bind.
  destruct (m w) as [[a|e] w1] eqn:H1.
  - intros H2 Hk. eapply Hf; [exact H2|]. eapply Hm; eassumption.
  - intros [= _ <-] Hk. eapply Hm; eassumption.
Qed.

Lemma keeps_assign (r : nat) (f : Asset.t -> Asset.t) : keeps_table (assign r f).
Proof. intros w o w' k ref [= _ <-] H. exact H. Qed.

Lemma keeps_console_log (e : string * string) : keeps_table (console_log e).
Proof. intros w o w' k ref [= _ <-] H. exact H. Qed.

Lemma keeps_call_getAssetId (c s : option string) :
  keeps_table (call_getAssetId c s).
Proof.
  unfold call_getAssetId.
  destruct c; [destruct s|]; auto using @keeps_ret, @keeps_throw.
Qed.

Lemma keeps_getAsset (t : string) : keeps_table (getAsset t).
Proof.
  intros w o w' k ref Hrun Hk.
  destruct (get_prop t (assetsById w)) as [r|] eqn:Ht.
  - rewrite (getAsset_hit _ _ _ Ht) in Hrun. injection Hrun as _ <-. exact Hk.
  - rewrite (getAsset_miss _ _ Ht) in Hrun. injection Hrun as _ <-. simpl.
    rewrite get_set_prop_ne; [exact Hk|]. intros ->. congruence.
Qed.

Create HintDb keeps.
#[local] Hint Resolve keeps_ret keeps_throw keeps_lift keeps_assign
  keeps_console_log keeps_call_getAssetId keeps_getAsset : keeps.
#[local] Hint Extern 2 (keeps_table (bind _ _)) =>
  apply keeps_bind; [|intros ?] : keeps.

Lemma keeps_on_receipt (abi : Interface) (r : Receipt.t) :
  keeps_table (on_receipt abi r).
Proof.
  unfold on_receipt, on_mint, on_log_data, on_setName, on_setSymbol,
    on_setDecimals.
  apply keeps_bind; [|intros _].
  - destruct (ReceiptType_eqb _ MINT); auto 6 with keeps.
  - destruct (ReceiptType_eqb _ LOG_DATA); [|auto with keeps].
    destruct (Receipt.rb r) as [rb|]; [|auto with keeps].
    destruct (rb =? setNameEventId); [auto 6 with keeps|].
    destruct (rb =? setSymbolEventId); [auto 6 with keeps|].
    destruct (rb =? setDecimalsEventId); auto 6 with keeps.
Qed.

Lemma keeps_forEach {A} (body : A -> M unit) (xs : list A) :
  (forall x, keeps_table (body x)) -> keeps_table (forEach xs body).
Proof.
  intros Hbody. induction xs as [|x xs IH]; simpl.
  - apply keeps_ret.
  - apply keeps_bind; [apply Hbody | intros _; exact IH].
Qed.

(* ===================================================================== *)
(** ** The fetch-or-create policy, ignored receipts, repeated mints *)
(* ===================================================================== *)

(** C8: fetch-or-create.  When the identifier is not in the table,
    [getAsset] makes one point lookup in the store and returns a new
    instance: the stored row when there is one, otherwise a record with the
    requested [id] and every other field null.  The instance is entered in
    the table, and from then on, whatever receipts are processed in between
    and however they end, [getAsset] returns that same instance and leaves
    the world, the log of store lookups included, as it is. *)
Theorem getAsset_fetch_or_create (abi : Interface) (assetId : string)
  (w : World) :
  get_prop assetId (assetsById w) = None ->
  exists (ref : nat) (w1 : World),
    getAsset assetId w = (Returns ref, w1) /\
    findOne_calls w1 = findOne_calls w ++ [assetId] /\
    heap w !! ref = None /\
    heap w1 !! ref =
      Some (match find_row assetId (store w) with
            | Some row => row
            | None => {| Asset.id := assetId; Asset.contractId := None;
                         Asset.subId := None; Asset.name := None;
                         Asset.symbol := None; Asset.decimals := None |}
            end) /\
    get_prop assetId (assetsById w1) = Some ref /\
    forall (rs : list Receipt.t) (o : Outcome unit) (w2 : World),
      forEach rs (on_receipt abi) w1 = (o, w2) ->
      getAsset assetId w2 = (Returns ref, w2).
Proof.
  intros Hmiss. eexists _, _. split; [apply getAsset_miss; exact Hmiss|].
  simpl. split; [reflexivity|]. split; [apply lookup_ge_None_2; lia|].
  split.
  - rewrite lookup_app_r by lia. rewrite Nat.sub_diag. simpl.
    destruct (find_row assetId (store w)); reflexivity.
  - split; [apply get_set_prop_eq|].
    intros rs o w2 Hrun. apply getAsset_hit.
    eapply (keeps_forEach (on_receipt abi) rs (keeps_on_receipt abi));
      [exact Hrun|].
    simpl. apply get_set_prop_eq.
Qed.

Lemma getAsset_fetch_or_create_witness :
  exists (ref : nat) (w1 : World),
    getAsset Sample.assetAB (batch_start [Sample.stored]) = (Returns ref, w1) /\
    findOne_calls w1 = [Sample.assetAB] /\
    heap w1 !! ref = Some Sample.stored.
Proof.
  destruct (getAsset_fetch_or_create Sample.abi Sample.assetAB
              (batch_start [Sample.stored]))
    as (ref & w1 & Hrun & Hcalls & _ & Hheap & _).
  - reflexivity.
  - exists ref, w1. split; [exact Hrun|]. split; [exact Hcalls|].
    rewrite Hheap. vm_compute. reflexivity.
Defined.

(** C5: a [LOG_DATA] receipt whose [rb] is none of the three known codes is
    ignored: the handler returns normally and the world (the instances, the
    table, the store) is exactly as before. *)
Theorem unknown_discriminator_ignored (abi : Interface) (r : Receipt.t)
  (w : World) :
  Receipt.receiptType r = LOG_DATA ->
  Receipt.rb r <> Some setNameEventId ->
  Receipt.rb r <> Some setSymbolEventId ->
  Receipt.rb r <> Some setDecimalsEventId ->
  on_receipt abi r w = (Returns tt, w).
Proof.
  intros Hty Hn Hs Hd. rewrite (on_receipt_LOG_DATA _ _ _ Hty).
  unfold on_log_data. destruct (Receipt.rb r) as [rb|]; [|reflexivity].
  destruct (Z.eqb_spec rb setNameEventId) as [->|_]; [contradiction|].
  destruct (Z.eqb_spec rb setSymbolEventId) as [->|_]; [contradiction|].
  destruct (Z.eqb_spec rb setDecimalsEventId) as [->|_]; [contradiction|].
  reflexivity.
Qed.

Lemma unknown_discriminator_ignored_witness :
  on_receipt Sample.abi (Sample.log_data 42 "name:Token")
    (batch_start [Sample.stored])
  = (Returns tt, batch_start [Sample.stored]).
Proof.
  apply unknown_discriminator_ignored; [reflexivity | | | ];
    vm_compute; discriminate.
Defined.

(** A mint that returned returns again when replayed at once, and the
    second pass changes nothing. *)
Lemma on_mint_replay (r : Receipt.t) (w w' : World) :
  on_mint r w = (Returns tt, w') -> on_mint r w' = (Returns tt, w').
Proof.
  destruct (Receipt.contract r) as [c|] eqn:Hc;
    [destruct (Receipt.subId r) as [s|] eqn:Hs|].
  - rewrite !(on_mint_eq _ _ _ _ Hc Hs).
    destruct (getAsset_returns (getAssetId c s) w) as (ref & w1 & Hget & Htab).
    rewrite (bind_Returns _ _ _ _ _ Hget). intros [= <-].
    match goal with
    | |- _ ?w2 = _ =>
        rewrite (bind_Returns _ _ w2 w2 ref (getAsset_hit _ _ w2 Htab))
    end.
    unfold assign. simpl. rewrite list_alter_alter_eq. reflexivity.
  - unfold on_mint. rewrite Hc, Hs. discriminate.
  - unfold on_mint. rewrite Hc. discriminate.
Qed.

(** C4: idempotent mint.  From every state of the world (in-memory records
    and store), processing a [MINT] receipt twice in a row has the outcome
    and the final world of processing it once; so the record it addresses
    ends with the same [contractId] and [subId], and every other field and
    record as well. *)
Theorem mint_idempotent (abi : Interface) (r : Receipt.t) (w : World) :
  Receipt.receiptType r = MINT ->
  (let! _ := on_receipt abi r in on_receipt abi r) w = on_receipt abi r w.
Proof.
  intros Hty. unfold bind.
  destruct (on_receipt abi r w) as [[[]|e] w'] eqn:H1; [|reflexivity].
  rewrite (on_receipt_MINT _ _ _ Hty) in H1.
  rewrite (on_receipt_MINT _ _ _ Hty). exact (on_mint_replay r w w' H1).
Qed.

Lemma mint_idempotent_witness :
  (let! _ := on_receipt Sample.abi Sample.mint in
   on_receipt Sample.abi Sample.mint) (batch_start [Sample.stored])
  = on_receipt Sample.abi Sample.mint (batch_start [Sample.stored]).
Proof. apply mint_idempotent. reflexivity. Defined.

(** At the level of a batch: a mint delivered twice in a row, anywhere in
    the batch, gives the run of the batch where it is delivered once. *)
Lemma forEach_mint_twice (abi : Interface) (pre post : list Receipt.t)
  (r : Receipt.t) (w : World) :
  Receipt.receiptType r = MINT ->
  forEach (pre ++ r :: r :: post) (on_receipt abi) w =
  forEach (pre ++ r :: post) (on_receipt abi) w.
Proof.
  intros Hty. rewrite !forEach_app. unfold bind.
  destruct (forEach pre (on_receipt abi) w) as [[[]|e] w1]; [|reflexivity].
  cbn [forEach]. unfold bind.
  destruct (on_receipt abi r w1) as [[[]|e] w2] eqn:H1; [|reflexivity].
  rewrite (on_receipt_MINT _ _ _ Hty) in H1.
  rewrite (on_receipt_MINT _ _ _ Hty), (on_mint_replay r w1 w2 H1).
  reflexivity.
Qed.

Lemma run_mint_twice (abi : Interface) (rows : list Asset.t)
  (pre post : list Receipt.t) (r : Receipt.t) :
  Receipt.receiptType r = MINT ->
  run abi rows [{| Block.receipts := pre ++ r :: r :: post |}] =
  run abi rows [{| Block.receipts := pre ++ r :: post |}].
Proof.
  intros Hty. unfold run, handler, bind. rewrite !process_flat.
  unfold receipts_of. cbn [map concat Block.receipts]. rewrite !app_nil_r.
  rewrite (forEach_mint_twice _ _ _ _ _ Hty). reflexivity.
Qed.

(* ===================================================================== *)
(** ** A receipt in closed form *)
(* ===================================================================== *)

Lemma getAsset_assign_touch (t : string) (f : Asset.t -> Asset.t) (w : World) :
  (let! x := getAsset t in assign x f) w = (Returns tt, touch t f w).
Proof.
  unfold touch. destruct (get_prop t (assetsById w)) as [r|] eqn:Ht.
  - rewrite (bind_Returns _ _ _ _ _ (getAsset_hit _ _ _ Ht)). reflexivity.
  - rewrite (bind_Returns _ _ _ _ _ (getAsset_miss _ _ Ht)).
    unfold assign. simpl. rewrite alter_app_r_alt by lia.
    rewrite Nat.sub_diag. reflexivity.
Qed.

Lemma print_nil (w : World) : print [] w = w.
Proof. destruct w. unfold print. simpl. rewrite app_nil_r. reflexivity. Qed.

Lemma on_receipt_step (abi : Interface) (r : Receipt.t) (t : string)
  (f : Asset.t -> Asset.t) (w : World) :
  effect abi r = Returns (Some (t, f)) ->
  on_receipt abi r w = (Returns tt, touch t f (print (printed abi r) w)).
Proof.
  unfold effect, printed.
  destruct (ReceiptType_cases r) as [Hty|[Hty|[Hty1 Hty2]]].
  - rewrite Hty, (on_receipt_MINT _ _ _ Hty), print_nil.
    destruct (Receipt.contract r) as [c|] eqn:Hc; [|discriminate].
    destruct (Receipt.subId r) as [s|] eqn:Hs; [|discriminate].
    intros [= <- <-]. rewrite (on_mint_eq _ _ _ _ Hc Hs).
    apply getAsset_assign_touch.
  - rewrite Hty, (on_receipt_LOG_DATA _ _ _ Hty). unfold on_log_data.
    destruct (Receipt.rb r) as [rb|]; [|discriminate].
    destruct (rb =? setNameEventId).
    { destruct (decodeLog_setName abi (Receipt.data r)) as [e|x] eqn:Hd;
        [|discriminate].
      intros [= <- <-]. rewrite (on_setName_eq _ _ _ _ Hd).
      apply getAsset_assign_touch. }
    rewrite print_nil.
    destruct (rb =? setSymbolEventId).
    { destruct (decodeLog_setSymbol abi (Receipt.data r)) as [e|x] eqn:Hd;
        [|discriminate].
      intros [= <- <-]. rewrite (on_setSymbol_eq _ _ _ _ Hd).
      apply getAsset_assign_touch. }
    destruct (rb =? setDecimalsEventId); [|discriminate].
    destruct (decodeLog_setDecimals abi (Receipt.data r)) as [e|x] eqn:Hd;
      [|discriminate].
    intros [= <- <-]. rewrite (on_setDecimals_eq _ _ _ _ Hd).
    apply getAsset_assign_touch.
  - destruct (Receipt.receiptType r); try discriminate; contradiction.
Qed.

(** The first touch of a batch, and a later touch of the same and only
    identifier. *)
Lemma touch_first (t : string) (f : Asset.t -> Asset.t)
  (lines : list (string * string)) (rows : list Asset.t) :
  touch t f (print lines (batch_start rows)) =
  {| store := rows; heap := [f (view (batch_start rows) t)];
     assetsById := [(t, 0%nat)]; findOne_calls := [t];
     upsert_calls := []; console := lines |}.
Proof. reflexivity. Qed.

Lemma touch_next (t : string) (f : Asset.t -> Asset.t)
  (lines : list (string * string)) (a : Asset.t) (rows : list Asset.t)
  (calls : list string) (ups : list (list Asset.t))
  (out : list (string * string)) :
  touch t f (print lines
               {| store := rows; heap := [a]; assetsById := [(t, 0%nat)];
                  findOne_calls := calls; upsert_calls := ups;
                  console := out |}) =
  {| store := rows; heap := [f a]; assetsById := [(t, 0%nat)];
     findOne_calls := calls; upsert_calls := ups; console := out ++ lines |}.
Proof.
  unfold touch, print. cbn [assetsById get_prop].
  rewrite String.eqb_refl. reflexivity.
Qed.

Lemma effect_mint (abi : Interface) (r : Receipt.t) (c s : string) :
  is_mint r c s ->
  effect abi r =
  Returns (Some (getAssetId c s,
                 fun a => Asset.set_subId (Some s)
                            (Asset.set_contractId (Some c) a))) /\
  printed abi r = [].
Proof.
  intros (Hty & Hc & Hs). unfold effect, printed. rewrite Hty, Hc, Hs. auto.
Qed.

Lemma effect_setName (abi : Interface) (r : Receipt.t) (k v : string) :
  is_setName abi r k v ->
  effect abi r = Returns (Some (k, Asset.set_name (Some v))) /\
  printed abi r = [(k, v)].
Proof.
  intros (Hty & Hrb & Hd). unfold effect, printed. rewrite Hty, Hrb, Hd. auto.
Qed.

Lemma effect_setSymbol (abi : Interface) (r : Receipt.t) (k v : string) :
  is_setSymbol abi r k v ->
  effect abi r = Returns (Some (k, Asset.set_symbol (Some v))) /\
  printed abi r = [].
Proof.
  intros (Hty & Hrb & Hd). unfold effect, printed. rewrite Hty, Hrb, Hd. auto.
Qed.

(* ===================================================================== *)
(** ** The end of the batch *)
(* ===================================================================== *)

Lemma Object_values_view (w : World) :
  wf w ->
  omap (fun kv => heap w !! snd kv) (assetsById w) =
  map (view w) (map fst (assetsById w)).
Proof.
  intros Hw.
  assert (Hall : forall l, (forall kv, In kv l -> In kv (assetsById w)) ->
            omap (fun kv => heap w !! snd kv) l = map (view w) (map fst l)).
  { induction l as [|[k r] l IH]; intros Hin; [reflexivity|].
    cbn [omap list_omap map fst snd].
    assert (Hk : get_prop k (assetsById w) = Some r).
    { apply get_prop_In; [apply Hw | apply Hin; left; reflexivity]. }
    destruct (lookup_lt_is_Some_2 _ _ (wf_bound _ Hw _ _ Hk)) as [a Ha].
    rewrite Ha. unfold view at 1. rewrite Hk, Ha. simpl. f_equal.
    apply IH. intros kv H. apply Hin. right. exact H. }
  apply Hall. auto.
Qed.

Lemma find_row_views (w : World) (k : string) :
  wf w -> get_prop k (assetsById w) <> None ->
  find_row k (map (view w) (map fst (assetsById w))) = Some (view w k).
Proof.
  intros Hw. rewrite get_prop_None. unfold find_row.
  induction (map fst (assetsById w)) as [|k0 ks IH]; simpl.
  - intros H. exfalso. apply H. tauto.
  - intros H. unfold has_id at 1. rewrite (view_id _ _ Hw).
    destruct (String.eqb_spec k0 k) as [->|Hne]; [reflexivity|].
    apply IH. tauto.
Qed.

Lemma find_upsert_rows_notin (k : string) (recs rows : list Asset.t) :
  ~ In k (map Asset.id recs) ->
  find_row k (upsert_rows recs rows) = find_row k rows.
Proof.
  unfold upsert_rows. revert rows.
  induction recs as [|a recs IH]; intros rows Hk; simpl; [reflexivity|].
  simpl in Hk. rewrite IH by tauto. apply find_upsert_row_ne. tauto.
Qed.

Lemma find_upsert_rows (a : Asset.t) (recs rows : list Asset.t) :
  NoDup (map Asset.id recs) -> In a recs ->
  find_row (Asset.id a) (upsert_rows recs rows) = Some a.
Proof.
  revert rows. induction recs as [|b recs IH]; intros rows Hnd Hin;
    [destruct Hin|].
  simpl in Hnd. apply NoDup_cons in Hnd as [Hb Hnd].
  destruct Hin as [->|Hin].
  - change (upsert_rows (a :: recs) rows)
      with (upsert_rows recs (upsert_row a rows)).
    rewrite find_upsert_rows_notin; [apply find_upsert_row|].
    intros H. apply Hb. apply list_elem_of_In. exact H.
  - change (upsert_rows (b :: recs) rows)
      with (upsert_rows recs (upsert_row b rows)).
    apply IH; assumption.
Qed.

Lemma handler_Throws (abi : Interface) (blocks : list Block.t)
  (w w1 : World) (e : Exn) :
  process abi blocks w = (Throws e, w1) ->
  handler abi blocks w = (Throws e, w1).
Proof. intros H. unfold handler. apply bind_Throws. exact H. Qed.

Lemma handler_Returns (abi : Interface) (blocks : list Block.t) (w w1 : World) :
  process abi blocks w = (Returns tt, w1) ->
  handler abi blocks w =
  upsert (omap (fun kv => heap w1 !! snd kv) (assetsById w1)) w1.
Proof.
  intros H. unfold handler. rewrite (bind_Returns _ _ _ _ _ H). reflexivity.
Qed.

(** A batch that returns made exactly one upsert, of the records held for
    the identifiers of the table, each under its own [id]. *)
Lemma run_Returns (abi : Interface) (rows : list Asset.t)
  (blocks : list Block.t) (w : World) :
  run abi rows blocks = (Returns tt, w) ->
  exists w1,
    forEach (receipts_of blocks) (on_receipt abi) (batch_start rows)
      = (Returns tt, w1) /\
    wf w1 /\
    upsert_calls w = [map (view w1) (map fst (assetsById w1))] /\
    store w = upsert_rows (map (view w1) (map fst (assetsById w1))) rows /\
    forall k, get_prop k (assetsById w1) <> None ->
      find_row k (map (view w1) (map fst (assetsById w1))) = Some (view w1 k)
      /\ find_row k (store w) = Some (view w1 k).
Proof.
  unfold run. intros Hrun.
  destruct (process abi blocks (batch_start rows)) as [[[]|e] w1] eqn:Hp.
  2:{ rewrite (handler_Throws _ _ _ _ _ Hp) in Hrun. discriminate. }
  rewrite (handler_Returns _ _ _ _ Hp) in Hrun. rewrite process_flat in Hp.
  destruct (forEach_keeps _ _ _ _ _ (wf_batch_start rows) Hp)
    as (Hw1 & Hst & Hup & _).
  rewrite (Object_values_view _ Hw1) in Hrun.
  unfold upsert in Hrun. injection Hrun as <-. simpl.
  exists w1. rewrite Hst, Hup. simpl.
  split; [exact Hp|]. split; [exact Hw1|]. split; [reflexivity|].
  split; [reflexivity|]. intros k Hk.
  pose proof (find_row_views _ _ Hw1 Hk) as Hfind.
  split; [exact Hfind|].
  rewrite <- (view_id w1 k Hw1) at 1. apply find_upsert_rows.
  - rewrite map_map. erewrite map_ext; [rewrite map_id; apply Hw1|].
    intros k'. apply view_id. exact Hw1.
  - unfold find_row in Hfind. apply find_some in Hfind. apply Hfind.
Qed.

(** C7: all or nothing.  When the handler of a batch throws, no upsert was
    made and the rows of the store are those the batch started from. *)
Theorem aborted_batch_leaves_store_untouched (abi : Interface)
  (rows : list Asset.t) (blocks : list Block.t) (e : Exn) (w : World) :
  run abi rows blocks = (Throws e, w) ->
  store w = rows /\ upsert_calls w = [].
Proof.
  unfold run. intros Hrun.
  destruct (process abi blocks (batch_start rows)) as [[[]|e'] w1] eqn:Hp.
  - rewrite (handler_Returns _ _ _ _ Hp) in Hrun. discriminate.
  - rewrite (handler_Throws _ _ _ _ _ Hp) in Hrun. injection Hrun as _ <-.
    rewrite process_flat in Hp.
    destruct (forEach_keeps _ _ _ _ _ (wf_batch_start rows) Hp)
      as (_ & Hst & Hup & _).
    split; assumption.
Qed.

Lemma aborted_batch_witness :
  fst (run Sample.abi [Sample.stored] Sample.aborting_batch)
    = Throws DecodeError /\
  store (snd (run Sample.abi [Sample.stored] Sample.aborting_batch))
    = [Sample.stored] /\
  upsert_calls (snd (run Sample.abi [Sample.stored] Sample.aborting_batch))
    = [].
Proof.
  split; [vm_compute; reflexivity|].
  apply (aborted_batch_leaves_store_untouched Sample.abi [Sample.stored]
           Sample.aborting_batch DecodeError).
  vm_compute. reflexivity.
Defined.

(* ===================================================================== *)
(** ** Frames *)
(* ===================================================================== *)

Lemma writes_within_refl (r : Receipt.t) (a : Asset.t) : writes_within r a a.
Proof. unfold writes_within. tauto. Qed.

(** The setter a receipt stands for stays within the fields of its kind. *)
Lemma effect_writes_within (abi : Interface) (r : Receipt.t) (t : string)
  (f : Asset.t -> Asset.t) (a : Asset.t) :
  effect abi r = Returns (Some (t, f)) -> writes_within r a (f a).
Proof.
  unfold effect, writes_within.
  destruct (Receipt.receiptType r) eqn:Hty; try discriminate.
  - (* LOG_DATA *)
    destruct (Receipt.rb r) as [rb|]; [|discriminate].
    destruct (Z.eqb_spec rb setNameEventId) as [->|Hn].
    { destruct (decodeLog_setName abi (Receipt.data r)); [|discriminate].
      intros [= <- <-]. simpl. repeat split; congruence. }
    destruct (Z.eqb_spec rb setSymbolEventId) as [->|Hs].
    { destruct (decodeLog_setSymbol abi (Receipt.data r)); [|discriminate].
      intros [= <- <-]. simpl. repeat split; congruence. }
    destruct (Z.eqb_spec rb setDecimalsEventId) as [->|Hd]; [|discriminate].
    destruct (decodeLog_setDecimals abi (Receipt.data r)); [|discriminate].
    intros [= <- <-]. simpl. repeat split; congruence.
  - (* MINT *)
    destruct (Receipt.contract r); [|discriminate].
    destruct (Receipt.subId r); [|discriminate].
    intros [= <- <-]. simpl. repeat split; congruence.
Qed.

(** Which fields a receipt may change.  Across the processing of one
    receipt, whatever its outcome, each record the batch holds (the
    record entered for an identifier, or the one [getAsset] would start
    from) and each instance that existed keep their [id]; a [MINT] receipt
    leaves [name], [symbol] and [decimals] as they were; a [LOG_DATA]
    receipt leaves [contractId] and [subId] as they were and, of [name],
    [symbol] and [decimals], may change only the one its [rb] designates;
    any other receipt changes nothing. *)
Lemma on_receipt_writes_within (abi : Interface) (r : Receipt.t)
  (w w' : World) (o : Outcome unit) :
  wf w -> on_receipt abi r w = (o, w') ->
  (forall k, writes_within r (view w k) (view w' k)) /\
  (forall ref a, heap w !! ref = Some a ->
     exists a', heap w' !! ref = Some a' /\ writes_within r a a').
Proof.
  intros Hw Hrun. pose proof (on_receipt_effect abi r w Hw) as He.
  destruct (effect abi r) as [[[t f]|]|e] eqn:Heff.
  - destruct He as (w1 & Hrun1 & _ & Ht). rewrite Hrun in Hrun1.
    injection Hrun1 as _ <-. split.
    + intros k. rewrite (touched_view _ _ _ _ Ht).
      destruct (String.eqb_spec k t) as [->|_].
      * eapply effect_writes_within. exact Heff.
      * apply writes_within_refl.
    + intros ref a Ha. destruct (touched_heap _ _ _ _ Ht _ _ Ha) as [H|H].
      * exists a. split; [exact H | apply writes_within_refl].
      * exists (f a). split; [exact H|].
        eapply effect_writes_within. exact Heff.
  - rewrite Hrun in He. injection He as _ ->. split.
    + intros k. apply writes_within_refl.
    + intros ref a Ha. exists a. split; [exact Ha | apply writes_within_refl].
  - rewrite Hrun in He. injection He as _ ->. split.
    + intros k. apply writes_within_refl.
    + intros ref a Ha. exists a. split; [exact Ha | apply writes_within_refl].
Qed.

(* ===================================================================== *)
(** ** Order of the events *)
(* ===================================================================== *)

(** Either the receipt is a [setName] for its target, or its setter keeps
    the name. *)
Lemma effect_name_cases (abi : Interface) (r : Receipt.t) (t : string)
  (f : Asset.t -> Asset.t) :
  effect abi r = Returns (Some (t, f)) ->
  (exists n, is_setName abi r t n) \/
  (forall a, Asset.name (f a) = Asset.name a).
Proof.
  unfold effect, is_setName.
  destruct (Receipt.receiptType r) eqn:Hty; try discriminate.
  - destruct (Receipt.rb r) as [rb|]; [|discriminate].
    destruct (Z.eqb_spec rb setNameEventId) as [->|Hn].
    { destruct (decodeLog_setName abi (Receipt.data r)) as [[k n]|];
        [|discriminate].
      intros [= <- <-]. left. exists n. auto. }
    destruct (rb =? setSymbolEventId).
    { destruct (decodeLog_setSymbol abi (Receipt.data r)); [|discriminate].
      intros [= <- <-]. right. reflexivity. }
    destruct (rb =? setDecimalsEventId); [|discriminate].
    destruct (decodeLog_setDecimals abi (Receipt.data r)); [|discriminate].
    intros [= <- <-]. right. reflexivity.
  - destruct (Receipt.contract r); [|discriminate].
    destruct (Receipt.subId r); [|discriminate].
    intros [= <- <-]. right. reflexivity.
Qed.

Lemma on_receipt_name_kept (abi : Interface) (r : Receipt.t) (k : string)
  (w w' : World) :
  wf w -> (forall n, ~ is_setName abi r k n) ->
  on_receipt abi r w = (Returns tt, w') ->
  Asset.name (view w' k) = Asset.name (view w k).
Proof.
  intros Hw Hnot Hrun. pose proof (on_receipt_effect abi r w Hw) as He.
  destruct (effect abi r) as [[[t f]|]|e] eqn:Heff.
  - destruct He as (w1 & Hrun1 & _ & Ht). rewrite Hrun in Hrun1.
    injection Hrun1 as <-. rewrite (touched_view _ _ _ _ Ht).
    destruct (String.eqb_spec k t) as [->|_]; [|reflexivity].
    destruct (effect_name_cases _ _ _ _ Heff) as [[n Hn]|Hkeep].
    + exfalso. exact (Hnot n Hn).
    + apply Hkeep.
  - rewrite Hrun in He. injection He as ->. reflexivity.
  - rewrite Hrun in He. discriminate.
Qed.

Lemma forEach_name_kept (abi : Interface) (rs : list Receipt.t) (k : string)
  (w w' : World) :
  wf w -> Forall (fun r => forall n, ~ is_setName abi r k n) rs ->
  forEach rs (on_receipt abi) w = (Returns tt, w') ->
  Asset.name (view w' k) = Asset.name (view w k).
Proof.
  intros Hw Hall. revert w Hw.
  induction Hall as [|r rs Hr _ IH]; intros w Hw; simpl.
  - intros [= <-]. reflexivity.
  - unfold bind. destruct (on_receipt abi r w) as [[[]|e] w1] eqn:H1;
      [|discriminate].
    intros H2. rewrite (IH w1); [|eapply on_receipt_keeps; eassumption|exact H2].
    eapply on_receipt_name_kept; eassumption.
Qed.

Lemma on_receipt_setName (abi : Interface) (r : Receipt.t) (k n : string)
  (w : World) :
  wf w -> is_setName abi r k n ->
  exists w', on_receipt abi r w = (Returns tt, w') /\ wf w' /\
             Asset.name (view w' k) = Some n /\
             get_prop k (assetsById w') <> None.
Proof.
  intros Hw Hn. pose proof (on_receipt_effect abi r w Hw) as He.
  destruct (effect_setName _ _ _ _ Hn) as [Heff _]. rewrite Heff in He.
  destruct He as (w' & Hrun & Hw' & Ht). exists w'.
  split; [exact Hrun|]. split; [exact Hw'|]. split; [|apply Ht].
  rewrite (touched_view _ _ _ _ Ht), String.eqb_refl. reflexivity.
Qed.

(** A batch whose receipts all address one identifier, in closed form:
    one lookup, one instance, one record upserted, which is the merge base
    passed through the setters in the order of the receipts. *)
Lemma forEach_single (abi : Interface) (t : string) (rs : list Receipt.t)
  (fs : list (Asset.t -> Asset.t)) :
  Forall2 (fun r f => effect abi r = Returns (Some (t, f))) rs fs ->
  forall a rows calls ups out,
    forEach rs (on_receipt abi)
      {| store := rows; heap := [a]; assetsById := [(t, 0%nat)];
         findOne_calls := calls; upsert_calls := ups; console := out |} =
    (Returns tt,
     {| store := rows; heap := [fold_left (fun x f => f x) fs a];
        assetsById := [(t, 0%nat)]; findOne_calls := calls;
        upsert_calls := ups;
        console := out ++ concat (map (printed abi) rs) |}).
Proof.
  induction 1 as [|r f rs fs Hr _ IH]; intros a rows calls ups out.
  - simpl. rewrite app_nil_r. reflexivity.
  - cbn [forEach].
    rewrite (bind_Returns _ _ _ _ _ (on_receipt_step abi r _ _ _ Hr)).
    rewrite touch_next, IH. cbn [map concat fold_left].
    rewrite app_assoc. reflexivity.
Qed.

Lemma run_single (abi : Interface) (rows : list Asset.t) (blocks : list Block.t)
  (t : string) (r : Receipt.t) (rs : list Receipt.t)
  (f : Asset.t -> Asset.t) (fs : list (Asset.t -> Asset.t)) :
  receipts_of blocks = r :: rs ->
  effect abi r = Returns (Some (t, f)) ->
  Forall2 (fun r f => effect abi r = Returns (Some (t, f))) rs fs ->
  let record := fold_left (fun x g => g x) fs (f (view (batch_start rows) t)) in
  run abi rows blocks =
  (Returns tt,
   {| store := upsert_row record rows;
      heap := [record];
      assetsById := [(t, 0%nat)];
      findOne_calls := [t];
      upsert_calls := [[record]];
      console := printed abi r ++ concat (map (printed abi) rs) |}).
Proof.
  intros Hflat E Es record. subst record.
  unfold run, handler, bind at 1. rewrite process_flat, Hflat. cbn [forEach].
  rewrite (bind_Returns _ _ _ _ _ (on_receipt_step abi r _ _ _ E)).
  rewrite touch_first, (forEach_single abi t rs fs Es). reflexivity.
Qed.

(** C3: order of the events.
    (a) A batch that delivers a name, a symbol and a mint for one asset, the
    identifier being the one derived from the mint, ends in the same world,
    and so upserts the same record, whether the receipts come as name,
    symbol, mint or as mint, name, symbol; the record carries all four
    fields.
    (b) When a batch that returns delivers two [setName] events for one
    identifier and no further one after the second, the record upserted
    for that identifier, and the row of the store, carry the name of the
    second, whatever other receipts come before, between and after. *)
Theorem field_events_commute_and_last_setName_wins (abi : Interface)
  (rows : list Asset.t) :
  (forall (c s n sy : string) (rm rn rs : Receipt.t)
          (blocks1 blocks2 : list Block.t),
     is_mint rm c s ->
     is_setName abi rn (getAssetId c s) n ->
     is_setSymbol abi rs (getAssetId c s) sy ->
     receipts_of blocks1 = [rn; rs; rm] ->
     receipts_of blocks2 = [rm; rn; rs] ->
     run abi rows blocks1 = run abi rows blocks2 /\
     exists w,
       run abi rows blocks1 = (Returns tt, w) /\
       upsert_calls w =
         [[{| Asset.id := getAssetId c s;
              Asset.contractId := Some c;
              Asset.subId := Some s;
              Asset.name := Some n;
              Asset.symbol := Some sy;
              Asset.decimals :=
                Asset.decimals (view (batch_start rows) (getAssetId c s)) |}]])
  /\
  (forall (blocks : list Block.t) (pre mid post : list Receipt.t)
          (r1 r2 : Receipt.t) (k n1 n2 : string) (w : World),
     receipts_of blocks = pre ++ r1 :: mid ++ r2 :: post ->
     is_setName abi r1 k n1 ->
     is_setName abi r2 k n2 ->
     Forall (fun r => forall n, ~ is_setName abi r k n) post ->
     run abi rows blocks = (Returns tt, w) ->
     exists (a : Asset.t) (records : list Asset.t),
       upsert_calls w = [records] /\
       find_row k records = Some a /\
       find_row k (store w) = Some a /\
       Asset.name a = Some n2).
Proof.
  split.
  - intros c s n sy rm rn rs blocks1 blocks2 Hm Hn Hs Hf1 Hf2.
    destruct (effect_mint abi rm c s Hm) as [Em Pm].
    destruct (effect_setName abi rn _ n Hn) as [En Pn].
    destruct (effect_setSymbol abi rs _ sy Hs) as [Es Ps].
    rewrite (run_single abi rows blocks1 _ rn [rs; rm] _ _ Hf1 En
               ltac:(repeat constructor; eassumption)).
    rewrite (run_single abi rows blocks2 _ rm [rn; rs] _ _ Hf2 Em
               ltac:(repeat constructor; eassumption)).
    cbn [map concat fold_left]. rewrite Pm, Pn, Ps.
    pose proof (view_id _ (getAssetId c s) (wf_batch_start rows)) as Hid.
    set (base := view (batch_start rows) (getAssetId c s)) in *.
    clearbody base. split; [reflexivity|].
    eexists. split; [reflexivity|].
    unfold Asset.set_subId, Asset.set_contractId, Asset.set_symbol,
      Asset.set_name. simpl. rewrite Hid. reflexivity.
  - intros blocks pre mid post r1 r2 k n1 n2 w Hflat _ H2 Hpost Hrun.
    destruct (run_Returns _ _ _ _ Hrun) as (w1 & Hfor & Hw1 & Hup & _ & Hfind).
    rewrite Hflat in Hfor.
    change (pre ++ r1 :: mid ++ r2 :: post)
      with (pre ++ (r1 :: mid) ++ r2 :: post) in Hfor.
    rewrite app_assoc, forEach_app in Hfor. unfold bind in Hfor.
    destruct (forEach (pre ++ r1 :: mid) (on_receipt abi) (batch_start rows))
      as [[[]|e] wa] eqn:Ha; [|discriminate].
    destruct (forEach_keeps _ _ _ _ _ (wf_batch_start rows) Ha) as (Hwa & _).
    destruct (on_receipt_setName abi r2 k n2 wa Hwa H2)
      as (wb & Hb & Hwb & Hname & Hin).
    cbn [forEach] in Hfor. rewrite (bind_Returns _ _ _ _ _ Hb) in Hfor.
    destruct (forEach_keeps _ _ _ _ _ Hwb Hfor) as (_ & _ & _ & Hkept).
    assert (Hk : get_prop k (assetsById w1) <> None)
      by (rewrite Hkept; exact Hin).
    destruct (Hfind k Hk) as [Hrec Hrow].
    exists (view w1 k), (map (view w1) (map fst (assetsById w1))).
    split; [exact Hup|]. split; [exact Hrec|]. split; [exact Hrow|].
    rewrite (forEach_name_kept _ _ _ _ _ Hwb Hpost Hfor). exact Hname.
Qed.

Lemma field_events_commute_witness :
  run Sample.abi [] Sample.name_symbol_mint
    = run Sample.abi [] Sample.mint_name_symbol /\
  exists (a : Asset.t) (records : list Asset.t),
    upsert_calls (snd (run Sample.abi [] Sample.renamed)) = [records] /\
    find_row Sample.assetAB records = Some a /\
    find_row Sample.assetAB (store (snd (run Sample.abi [] Sample.renamed)))
      = Some a /\
    Asset.name a = Some "Coin"%string.
Proof.
  destruct (field_events_commute_and_last_setName_wins Sample.abi [])
    as [Ha Hb].
  split.
  - apply (Ha Sample.contractAA Sample.subBB "Token"%string "TKN"%string
             Sample.mint
             (Sample.log_data setNameEventId "name:Token")
             (Sample.log_data setSymbolEventId "symbol:TKN")).
    + repeat split.
    + repeat split.
    + repeat split.
    + reflexivity.
    + reflexivity.
  - apply (Hb Sample.renamed
             [] [Sample.log_data setSymbolEventId "symbol:TKN"] [Sample.mint]
             (Sample.log_data setNameEventId "name:Token")
             (Sample.log_data setNameEventId "name:Coin")
             Sample.assetAB "Token"%string "Coin"%string).
    + reflexivity.
    + repeat split.
    + repeat split.
    + apply Forall_cons. split; [|apply Forall_nil; exact I].
      intros n (Hty & _). discriminate Hty.
    + vm_compute. reflexivity.
Defined.

(* ===================================================================== *)
(** ** The two scenarios of the specification *)
(* ===================================================================== *)

(** C1: end to end.  On an empty store, a batch of one block whose
    receipts are a mint by contract [0xAA..AA] (32 bytes) with sub-identifier
    [0xBB..BB] (32 bytes), then a [setName] log whose payload decodes to the
    derived identifier and the name [Token], returns after exactly one
    upsert, of exactly one record: the identifier is ["0x"] followed by the
    lowercase hexadecimal SHA-256 digest of the 32 bytes [0xAA] followed by
    the 32 bytes [0xBB], the contract and sub-identifier are those of the
    mint, the name is [Token], symbol and decimals are null.  The store then
    holds that one row. *)
Theorem end_to_end_mint_then_setName (abi : Interface) (rm rn : Receipt.t) :
  is_mint rm Sample.contractAA Sample.subBB ->
  is_setName abi rn (getAssetId Sample.contractAA Sample.subBB) "Token" ->
  exists w,
    run abi [] [{| Block.receipts := [rm; rn] |}] = (Returns tt, w) /\
    upsert_calls w =
      [[{| Asset.id :=
             ("0x" ++ Buffer.to_hex
                (SHA256.digest (repeat 170 32 ++ repeat 187 32)))%string;
           Asset.contractId := Some Sample.contractAA;
           Asset.subId := Some Sample.subBB;
           Asset.name := Some "Token"%string;
           Asset.symbol := None;
           Asset.decimals := None |}]] /\
    store w =
      [{| Asset.id :=
            "0xe2d80f78d79027556d6619a1400605abbdca6bb6eb24e0831e33ecd5466fa5f6"%string;
          Asset.contractId := Some Sample.contractAA;
          Asset.subId := Some Sample.subBB;
          Asset.name := Some "Token"%string;
          Asset.symbol := None;
          Asset.decimals := None |}].
Proof.
  intros Hm Hn.
  destruct (effect_mint abi rm _ _ Hm) as [Em _].
  destruct (effect_setName abi rn _ _ Hn) as [En _].
  rewrite (run_single abi [] [{| Block.receipts := [rm; rn] |}] _ rm [rn] _ _
             eq_refl Em ltac:(repeat constructor; eassumption)).
  change (getAssetId Sample.contractAA Sample.subBB) with Sample.assetAB.
  eexists. split; [reflexivity|].
  cbn [upsert_calls store fold_left view batch_start assetsById get_prop
       find_row find default from_option upsert_row].
  unfold Asset.set_name, Asset.set_subId, Asset.set_contractId, Asset.new.
  cbn [Asset.id Asset.contractId Asset.subId Asset.name Asset.symbol
       Asset.decimals].
  split.
  - rewrite assetAB_digest. reflexivity.
  - rewrite assetAB_value. reflexivity.
Qed.

Lemma end_to_end_witness :
  upsert_calls (snd (run Sample.abi [] Sample.mint_then_name)) =
    [[{| Asset.id :=
           "0xe2d80f78d79027556d6619a1400605abbdca6bb6eb24e0831e33ecd5466fa5f6"%string;
         Asset.contractId := Some Sample.contractAA;
         Asset.subId := Some Sample.subBB;
         Asset.name := Some "Token"%string;
         Asset.symbol := None;
         Asset.decimals := None |}]].
Proof.
  destruct (end_to_end_mint_then_setName Sample.abi Sample.mint
              (Sample.log_data setNameEventId "name:Token"))
    as (w & Hrun & Hup & _).
  - repeat split.
  - repeat split.
  - change (run Sample.abi [] Sample.mint_then_name = (Returns (), w)) in Hrun.
    rewrite Hrun. cbn [snd]. rewrite Hup. vm_compute. reflexivity.
Defined.

(** C2: partial record preserved.  When the store holds a row for an
    identifier, with a contract and a sub-identifier and with name, symbol
    and decimals null, a batch whose only receipt is a [setSymbol] log for
    that identifier returns after upserting exactly one record: the row
    with its [contractId] and [subId] unchanged, the decoded symbol, and
    name and decimals still null.  The store then holds that record under
    the identifier. *)
Theorem setSymbol_preserves_stored_mint_fields (abi : Interface)
  (rows : list Asset.t) (blocks : list Block.t) (r : Receipt.t)
  (k sym : string) (a : Asset.t) :
  find_row k rows = Some a ->
  Asset.name a = None -> Asset.symbol a = None -> Asset.decimals a = None ->
  receipts_of blocks = [r] ->
  is_setSymbol abi r k sym ->
  exists w a',
    run abi rows blocks = (Returns tt, w) /\
    upsert_calls w = [[a']] /\
    find_row k (store w) = Some a' /\
    Asset.id a' = k /\
    Asset.contractId a' = Asset.contractId a /\
    Asset.subId a' = Asset.subId a /\
    Asset.symbol a' = Some sym /\
    Asset.name a' = None /\
    Asset.decimals a' = None.
Proof.
  intros Hrow Hname _ Hdec Hflat Hs.
  destruct (effect_setSymbol abi r _ _ Hs) as [Es _].
  rewrite (run_single abi rows blocks _ r [] _ [] Hflat Es ltac:(constructor)).
  assert (Hview : view (batch_start rows) k = a).
  { unfold view. simpl. rewrite Hrow. reflexivity. }
  pose proof (find_row_id _ _ _ Hrow) as Hid.
  cbn [fold_left]. rewrite Hview.
  eexists _, (Asset.set_symbol (Some sym) a).
  split; [reflexivity|]. cbn [upsert_calls store].
  split; [reflexivity|]. split.
  - rewrite <- Hid at 1. apply (find_upsert_row (Asset.set_symbol (Some sym) a)).
  - simpl. repeat split; assumption.
Qed.

Lemma setSymbol_preserves_witness :
  exists w a',
    run Sample.abi [Sample.stored] Sample.symbol_only = (Returns tt, w) /\
    upsert_calls w = [[a']] /\
    Asset.contractId a' = Some Sample.contractAA /\
    Asset.subId a' = Some Sample.subBB /\
    Asset.symbol a' = Some "TKN"%string.
Proof.
  destruct (setSymbol_preserves_stored_mint_fields Sample.abi [Sample.stored]
              Sample.symbol_only (Sample.log_data setSymbolEventId "symbol:TKN")
              Sample.assetAB "TKN"%string Sample.stored)
    as (w & a' & Hrun & Hup & _ & _ & Hc & Hs & Hsym & _).
  - vm_compute. reflexivity.
  - reflexivity.
  - reflexivity.
  - reflexivity.
  - reflexivity.
  - repeat split.
  - exists w, a'. repeat split; assumption.
Defined.

(* ===================================================================== *)
(** ** The identity deriver: format and collisions *)
(* ===================================================================== *)

Lemma unhex_hex_digit (n : Z) :
  0 <= n < 16 -> Buffer.unhex (Buffer.hex_digit n) = Some n.
Proof.
  intros Hn.
  assert (Hall : forallb
                   (fun i => match Buffer.unhex
                                     (Buffer.hex_digit (Z.of_nat i)) with
                             | Some m => m =? Z.of_nat i
                             | None => false
                             end) (seq 0 16) = true) by reflexivity.
  rewrite forallb_forall in Hall. specialize (Hall (Z.to_nat n)).
  rewrite Z2Nat.id in Hall by lia.
  destruct (Buffer.unhex (Buffer.hex_digit n)) as [m|].
  - f_equal. apply Z.eqb_eq, Hall, in_seq. lia.
  - discriminate Hall. apply in_seq. lia.
Qed.

Lemma nibbles_range (b : Z) :
  0 <= b < 256 ->
  0 <= Z.shiftr b 4 < 16 /\ 0 <= Z.land b 15 < 16 /\
  16 * Z.shiftr b 4 + Z.land b 15 = b.
Proof.
  intros Hb. rewrite Z.shiftr_div_pow2 by lia. change 15 with (Z.ones 4).
  rewrite Z.land_ones by lia. change (2 ^ 4) with 16.
  pose proof (Z.div_mod b 16). pose proof (Z.mod_pos_bound b 16).
  assert (0 <= b / 16 < 16)
    by (split; [apply Z.div_pos | apply Z.div_lt_upper_bound]; lia).
  lia.
Qed.

(** Hexadecimal encoding and decoding are inverse on bytes. *)
Lemma from_hex_to_hex (bs : list Z) :
  Forall (fun b => 0 <= b < 256) bs ->
  well_formed_hex (Buffer.to_hex bs) = true /\
  Buffer.from_hex (Buffer.to_hex bs) = bs.
Proof.
  induction 1 as [|b bs Hb _ [IHw IHd]]; [split; reflexivity|].
  destruct (nibbles_range b Hb) as (Hhi & Hlo & Hsum).
  cbn [Buffer.to_hex well_formed_hex Buffer.from_hex].
  rewrite (unhex_hex_digit _ Hhi), (unhex_hex_digit _ Hlo), IHd, Hsum.
  split; [exact IHw | reflexivity].
Qed.

(** X1: the identifier is a well-formed [0x] hexadecimal string of 32
    bytes: without its first two characters it decodes, completely, to the
    SHA-256 digest it was made from.  Derived identifiers thus have the form
    of the identifiers that log events carry. *)
Theorem asset_id_decodes_to_digest (contractId subId : string) :
  slice 2 (getAssetId contractId subId) =
    Buffer.to_hex (SHA256.digest
                     (Buffer.from_hex (slice 2 contractId ++ slice 2 subId))) /\
  well_formed_hex (slice 2 (getAssetId contractId subId)) = true /\
  Buffer.from_hex (slice 2 (getAssetId contractId subId)) =
    SHA256.digest (Buffer.from_hex (slice 2 contractId ++ slice 2 subId)) /\
  length (Buffer.from_hex (slice 2 (getAssetId contractId subId))) = 32%nat.
Proof.
  rewrite getAssetId_shape.
  pose proof (digest_bytes
                (Buffer.from_hex (slice 2 contractId ++ slice 2 subId))) as Hb.
  pose proof (digest_length
                (Buffer.from_hex (slice 2 contractId ++ slice 2 subId))) as Hl.
  set (d := SHA256.digest _) in *. clearbody d.
  change (slice 2 ("0x" ++ Buffer.to_hex d)) with (Buffer.to_hex d).
  destruct (from_hex_to_hex d Hb) as [Hw Hd]. rewrite Hw, Hd. auto.
Qed.

Lemma unhex_lower_char (c : ascii) :
  Buffer.unhex (lower_char c) = Buffer.unhex c.
Proof. destruct c as [[] [] [] [] [] [] [] []]; reflexivity. Qed.

Lemma from_hex_toLowerCase_aux (s : string) :
  Buffer.from_hex (toLowerCase s) = Buffer.from_hex s /\
  forall a, Buffer.from_hex (toLowerCase (String a s)) =
            Buffer.from_hex (String a s).
Proof.
  induction s as [|b s [IH0 IH1]].
  - split; [reflexivity | intros a; reflexivity].
  - split; [apply IH1|]. intros a.
    cbn [toLowerCase Buffer.from_hex].
    rewrite !unhex_lower_char. cbn [toLowerCase] in IH0. rewrite IH0.
    reflexivity.
Qed.

Lemma toLowerCase_app (s1 s2 : string) :
  toLowerCase (s1 ++ s2) = (toLowerCase s1 ++ toLowerCase s2)%string.
Proof. induction s1 as [|c s1 IH]; simpl; [|rewrite IH]; reflexivity. Qed.

Lemma slice_toLowerCase (n : nat) (s : string) :
  slice n (toLowerCase s) = toLowerCase (slice n s).
Proof.
  revert s. induction n as [|n IH]; intros s; [reflexivity|].
  destruct s as [|c s]; [reflexivity|]. simpl. apply IH.
Qed.

Lemma getAssetId_toLowerCase (contractId subId : string) :
  getAssetId (toLowerCase contractId) (toLowerCase subId) =
  getAssetId contractId subId.
Proof.
  rewrite !getAssetId_shape, !slice_toLowerCase, <- toLowerCase_app.
  destruct (from_hex_toLowerCase_aux (slice 2 contractId ++ slice 2 subId))
    as [-> _].
  reflexivity.
Qed.

(** X2: the identifier does not depend on the case of the hexadecimal
    digits: two spellings of a contract identifier and of a sub-identifier
    that agree up to case derive the same asset identifier. *)
Theorem getAssetId_case_insensitive (c c' s s' : string) :
  toLowerCase c = toLowerCase c' ->
  toLowerCase s = toLowerCase s' ->
  getAssetId c s = getAssetId c' s'.
Proof.
  intros Hc Hs.
  rewrite <- (getAssetId_toLowerCase c s), <- (getAssetId_toLowerCase c' s').
  rewrite Hc, Hs. reflexivity.
Qed.

Lemma getAssetId_case_insensitive_witness :
  getAssetId "0xAB" "0xCdEf" = getAssetId "0xab" "0xcdef".
Proof. apply getAssetId_case_insensitive; reflexivity. Defined.

(* ===================================================================== *)
(** ** The identity deriver on any string *)
(* ===================================================================== *)

Lemma unhex_unit_of_ascii (c : ascii) :
  UTF16.unhex (Z.of_N (N_of_ascii c)) = Buffer.unhex c.
Proof. destruct c as [[] [] [] [] [] [] [] []]; reflexivity. Qed.

Lemma units_of_string_cons (c : ascii) (s : string) :
  units_of_string (String c s) = Z.of_N (N_of_ascii c) :: units_of_string s.
Proof. reflexivity. Qed.

Lemma units_of_string_app (s1 s2 : string) :
  units_of_string (s1 ++ s2) = units_of_string s1 ++ units_of_string s2.
Proof.
  induction s1 as [|c s1 IH]; [reflexivity|].
  cbn [String.append]. rewrite !units_of_string_cons, IH. reflexivity.
Qed.

Lemma drop_units_of_string (n : nat) (s : string) :
  drop n (units_of_string s) = units_of_string (slice n s).
Proof.
  revert s. induction n as [|n IH]; intros s; [reflexivity|].
  destruct s as [|c s]; [reflexivity|].
  rewrite units_of_string_cons. cbn [drop slice]. apply IH.
Qed.

(** On characters below U+0100 the two decoders agree. *)
Lemma from_hex_units_of_string_aux (s : string) :
  UTF16.from_hex (units_of_string s) = Buffer.from_hex s /\
  forall a, UTF16.from_hex (units_of_string (String a s)) =
            Buffer.from_hex (String a s).
Proof.
  induction s as [|b s [IH0 IH1]].
  - split; [reflexivity | intros a; reflexivity].
  - split; [apply IH1|]. intros a.
    rewrite !units_of_string_cons. cbn [UTF16.from_hex Buffer.from_hex].
    rewrite !unhex_unit_of_ascii, IH0. reflexivity.
Qed.

Lemma getAssetId_utf16_agrees (contractId subId : string) :
  getAssetId_utf16 (units_of_string contractId) (units_of_string subId) =
  getAssetId contractId subId.
Proof.
  unfold getAssetId_utf16, getAssetId.
  rewrite !drop_units_of_string, <- units_of_string_app.
  destruct (from_hex_units_of_string_aux
              (slice 2 contractId ++ slice 2 subId)) as [-> _].
  reflexivity.
Qed.

Lemma from_hex_units_app_aux (p q : list Z) :
  (UTF16.well_formed p = true ->
   UTF16.from_hex (p ++ q) = UTF16.from_hex p ++ UTF16.from_hex q) /\
  (forall a, UTF16.well_formed (a :: p) = true ->
   UTF16.from_hex (a :: p ++ q) =
   UTF16.from_hex (a :: p) ++ UTF16.from_hex q).
Proof.
  induction p as [|b p [IH0 IH1]].
  - split; [reflexivity | intros a H; discriminate H].
  - split.
    + intros H. apply IH1. exact H.
    + intros a H. cbn [UTF16.well_formed] in H.
      cbn [app UTF16.from_hex].
      destruct (UTF16.unhex a); [|discriminate H].
      destruct (UTF16.unhex b); [|discriminate H].
      cbn [app]. f_equal. apply IH0. exact H.
Qed.

Lemma from_hex_units_app (p q : list Z) :
  UTF16.well_formed p = true ->
  UTF16.from_hex (p ++ q) = UTF16.from_hex p ++ UTF16.from_hex q.
Proof. apply from_hex_units_app_aux. Qed.

Lemma from_hex_units_stops (p q : list Z) (a b : Z) :
  UTF16.well_formed p = true ->
  UTF16.unhex a = None \/ UTF16.unhex b = None ->
  UTF16.from_hex (p ++ a :: b :: q) = UTF16.from_hex p.
Proof.
  intros Hp Hab. rewrite from_hex_units_app by exact Hp.
  cbn [UTF16.from_hex].
  destruct Hab as [-> | ->]; [|destruct (UTF16.unhex a)]; apply app_nil_r.
Qed.

Lemma from_hex_units_odd (p : list Z) (a : Z) :
  UTF16.well_formed p = true ->
  UTF16.from_hex (p ++ [a]) = UTF16.from_hex p.
Proof. intros Hp. rewrite from_hex_units_app by exact Hp. apply app_nil_r. Qed.

(** A code unit above U+00FF is read by its low byte: the two units U+0131
    count as the digits [11], and decoding goes on to the sub-identifier. *)
Example getAssetId_low_byte :
  getAssetId_utf16 [48; 120; 305; 305] [48; 120; 51; 52] =
  ("0x" ++ Buffer.to_hex (SHA256.digest [17; 52]))%string /\
  getAssetId_utf16 [48; 120; 305; 305] [48; 120; 51; 52] =
  "0xb2ad30997a78c860aa84d0e9624de80b1213cd5a970b27b625879d97211a7df6"%string.
Proof. vm_compute. split; reflexivity. Qed.

(** C6 (as amended): [getAssetId] rejects nothing.  For every pair of input
    strings, given by their UTF-16 code units, it returns the string ["0x"]
    followed by the 64 lowercase hexadecimal digits of the SHA-256 digest of
    the bytes decoded from the two inputs, each without its first two
    characters, concatenated as strings.  Decoding reads the low byte of
    each code unit, pair by pair; it ends, without an error, at the first
    pair whose low bytes are not two hexadecimal digits, and it drops a
    last single character; when the contract identifier decodes completely,
    the bytes are those of the contract identifier followed by those of
    the sub-identifier.  On strings of characters below U+0100 this is the
    identifier that the call in the handler returns, leaving the world as
    it is. *)
Theorem getAssetId_total (contractId subId : list Z) :
  getAssetId_utf16 contractId subId =
    ("0x" ++ Buffer.to_hex
       (SHA256.digest
          (UTF16.from_hex (drop 2 contractId ++ drop 2 subId))))%string /\
  String.length (getAssetId_utf16 contractId subId) = 66%nat /\
  lower_hex (Buffer.to_hex
               (SHA256.digest
                  (UTF16.from_hex (drop 2 contractId ++ drop 2 subId))))
    = true /\
  (forall p q a b,
     drop 2 contractId ++ drop 2 subId = p ++ a :: b :: q ->
     UTF16.well_formed p = true ->
     UTF16.unhex a = None \/ UTF16.unhex b = None ->
     UTF16.from_hex (drop 2 contractId ++ drop 2 subId) = UTF16.from_hex p) /\
  (forall p a,
     drop 2 contractId ++ drop 2 subId = p ++ [a] ->
     UTF16.well_formed p = true ->
     UTF16.from_hex (drop 2 contractId ++ drop 2 subId) = UTF16.from_hex p) /\
  (UTF16.well_formed (drop 2 contractId) = true ->
   UTF16.from_hex (drop 2 contractId ++ drop 2 subId) =
   UTF16.from_hex (drop 2 contractId) ++ UTF16.from_hex (drop 2 subId)) /\
  (forall (c s : string) (w : World),
     contractId = units_of_string c -> subId = units_of_string s ->
     call_getAssetId (Some c) (Some s) w =
     (Returns (getAssetId_utf16 contractId subId), w)).
Proof.
  split; [reflexivity|]. split.
  { unfold getAssetId_utf16, crypto.digest_hex.
    cbn [String.append String.length].
    rewrite to_hex_length, digest_length. reflexivity. }
  split; [apply to_hex_lower, digest_bytes|].
  split; [intros p q a b -> Hp Hab; apply from_hex_units_stops; assumption|].
  split; [intros p a -> Hp; apply from_hex_units_odd; assumption|].
  split; [apply from_hex_units_app|].
  intros c s w -> ->. rewrite getAssetId_utf16_agrees. reflexivity.
Qed.

Lemma getAssetId_total_witness :
  UTF16.from_hex (drop 2 (units_of_string "0xabzz")
                    ++ drop 2 (units_of_string "0x34")) = [171] /\
  call_getAssetId (Some "0xabzz"%string) (Some "0x34"%string) (batch_start [])
  = (Returns (getAssetId_utf16 (units_of_string "0xabzz")
                (units_of_string "0x34")), batch_start []).
Proof.
  destruct (getAssetId_total (units_of_string "0xabzz")
              (units_of_string "0x34"))
    as (_ & _ & _ & Hstop & _ & _ & Hcall).
  split.
  - rewrite (Hstop [97; 98] [51; 52] 122 122);
      [reflexivity | reflexivity | reflexivity | left; reflexivity].
  - apply Hcall; reflexivity.
Defined.

(** X3: a contract identifier with a pair that does not decode hides the
    sub-identifier.  When the contract identifier, after its first two
    characters and a run of pairs that decode, has a pair of code units
    whose low bytes are not two hexadecimal digits, decoding ends at that
    pair: every sub-identifier yields the same asset identifier, the digest
    of the bytes before the pair. *)
Theorem malformed_contract_hides_subId (contractId p q : list Z) (a b : Z)
  (subId subId' : list Z) :
  drop 2 contractId = p ++ a :: b :: q ->
  UTF16.well_formed p = true ->
  UTF16.unhex a = None \/ UTF16.unhex b = None ->
  getAssetId_utf16 contractId subId = getAssetId_utf16 contractId subId' /\
  getAssetId_utf16 contractId subId =
    ("0x" ++ Buffer.to_hex (SHA256.digest (UTF16.from_hex p)))%string.
Proof.
  intros Hc Hp Hab.
  assert (Hstop : forall s,
             UTF16.from_hex (drop 2 contractId ++ drop 2 s) =
             UTF16.from_hex p).
  { intros s. rewrite Hc, <- app_assoc. cbn [app].
    apply from_hex_units_stops; assumption. }
  unfold getAssetId_utf16. rewrite !Hstop. split; reflexivity.
Qed.

Lemma malformed_contract_hides_subId_witness :
  getAssetId_utf16 (units_of_string "0xabzz") (units_of_string "0x01") =
  getAssetId_utf16 (units_of_string "0xabzz") (units_of_string "0x02").
Proof.
  apply (malformed_contract_hides_subId (units_of_string "0xabzz")
           [97; 98] [] 122 122
           (units_of_string "0x01") (units_of_string "0x02"));
    [reflexivity | reflexivity | left; reflexivity].
Defined.

(* ===================================================================== *)
(** ** Outcomes of a receipt *)
(* ===================================================================== *)

(** The handler of one receipt in closed form, from any world. *)
Lemma on_receipt_outcome (abi : Interface) (r : Receipt.t) (w : World) :
  on_receipt abi r w =
  match effect abi r with
  | Returns None => (Returns tt, w)
  | Returns (Some (t, f)) =>
      (Returns tt, touch t f (print (printed abi r) w))
  | Throws e => (Throws e, w)
  end.
Proof.
  destruct (effect abi r) as [[[t f]|]|e] eqn:Heff;
    [apply on_receipt_step; exact Heff | |]; revert Heff; unfold effect;
    destruct (ReceiptType_cases r) as [Hty|[Hty|[Hty1 Hty2]]];
    try (rewrite (on_receipt_other _ _ _ Hty1 Hty2);
         destruct (Receipt.receiptType r); try discriminate; try contradiction;
         reflexivity).
  - rewrite Hty. destruct (Receipt.contract r), (Receipt.subId r); discriminate.
  - rewrite Hty, (on_receipt_LOG_DATA _ _ _ Hty). unfold on_log_data.
    destruct (Receipt.rb r) as [rb|]; [|reflexivity].
    destruct (rb =? setNameEventId);
      [destruct (decodeLog_setName abi (Receipt.data r)); discriminate|].
    destruct (rb =? setSymbolEventId);
      [destruct (decodeLog_setSymbol abi (Receipt.data r)); discriminate|].
    destruct (rb =? setDecimalsEventId);
      [destruct (decodeLog_setDecimals abi (Receipt.data r)); discriminate|].
    reflexivity.
  - rewrite Hty, (on_receipt_MINT _ _ _ Hty). unfold on_mint.
    destruct (Receipt.contract r) as [c|]; [|intros [= <-]; reflexivity].
    destruct (Receipt.subId r) as [s|]; [discriminate|].
    intros [= <-]. reflexivity.
  - rewrite Hty, (on_receipt_LOG_DATA _ _ _ Hty). unfold on_log_data.
    destruct (Receipt.rb r) as [rb|]; [|discriminate].
    destruct (rb =? setNameEventId).
    { destruct (decodeLog_setName abi (Receipt.data r)) eqn:Hd; [discriminate|].
      intros [= <-]. unfold on_setName, bind, lift. rewrite Hd. reflexivity. }
    destruct (rb =? setSymbolEventId).
    { destruct (decodeLog_setSymbol abi (Receipt.data r)) eqn:Hd; [discriminate|].
      intros [= <-]. unfold on_setSymbol, bind, lift. rewrite Hd. reflexivity. }
    destruct (rb =? setDecimalsEventId); [|discriminate].
    destruct (decodeLog_setDecimals abi (Receipt.data r)) eqn:Hd; [discriminate|].
    intros [= <-]. unfold on_setDecimals, bind, lift. rewrite Hd. reflexivity.
Qed.

Lemma codes_distinct :
  setNameEventId <> setSymbolEventId /\
  setNameEventId <> setDecimalsEventId /\
  setSymbolEventId <> setDecimalsEventId.
Proof. repeat split; discriminate. Qed.

(** When a receipt fails, in terms of its fields. *)
Lemma effect_Throws (abi : Interface) (r : Receipt.t) (e : Exn) :
  effect abi r = Throws e <->
  (Receipt.receiptType r = MINT /\
   (Receipt.contract r = None \/ Receipt.subId r = None) /\
   e = TypeError) \/
  (Receipt.receiptType r = LOG_DATA /\
   ((Receipt.rb r = Some setNameEventId /\
     decodeLog_setName abi (Receipt.data r) = Throws e) \/
    (Receipt.rb r = Some setSymbolEventId /\
     decodeLog_setSymbol abi (Receipt.data r) = Throws e) \/
    (Receipt.rb r = Some setDecimalsEventId /\
     decodeLog_setDecimals abi (Receipt.data r) = Throws e))).
Proof.
  destruct codes_distinct as (Hns & Hnd & Hsd). unfold effect.
  destruct (ReceiptType_cases r) as [Hty|[Hty|[Hty1 Hty2]]].
  - rewrite Hty.
    destruct (Receipt.contract r), (Receipt.subId r); split;
      try (intros [= <-]; left; auto; fail);
      try discriminate;
      intros [(_ & H & He)|(H & _)]; try discriminate H;
      try (destruct H; discriminate); subst; reflexivity.
  - rewrite Hty. destruct (Receipt.rb r) as [rb|].
    2:{ split; [discriminate|].
        intros [(H & _)|(_ & [(H & _)|[(H & _)|(H & _)]])]; discriminate H. }
    destruct (Z.eqb_spec rb setNameEventId) as [->|Hn].
    { destruct (decodeLog_setName abi (Receipt.data r)) as [x|e'] eqn:Hd; split;
        try discriminate.
      - intros [(H & _)|(_ & [(_ & H)|[(H & _)|(H & _)]])];
          try discriminate H; injection H; congruence.
      - intros [= <-]. right. auto.
      - intros [(H & _)|(_ & [(_ & H)|[(H & _)|(H & _)]])];
          try discriminate H; try congruence; injection H; congruence. }
    destruct (Z.eqb_spec rb setSymbolEventId) as [->|Hs].
    { destruct (decodeLog_setSymbol abi (Receipt.data r)) as [x|e'] eqn:Hd; split;
        try discriminate.
      - intros [(H & _)|(_ & [(H & _)|[(_ & H)|(H & _)]])];
          try discriminate H; injection H; congruence.
      - intros [= <-]. right. auto.
      - intros [(H & _)|(_ & [(H & _)|[(_ & H)|(H & _)]])];
          try discriminate H; try congruence; injection H; congruence. }
    destruct (Z.eqb_spec rb setDecimalsEventId) as [->|Hd'].
    { destruct (decodeLog_setDecimals abi (Receipt.data r)) as [x|e'] eqn:Hd; split;
        try discriminate.
      - intros [(H & _)|(_ & [(H & _)|[(H & _)|(_ & H)]])];
          try discriminate H; injection H; congruence.
      - intros [= <-]. right. auto.
      - intros [(H & _)|(_ & [(H & _)|[(H & _)|(_ & H)]])];
          try discriminate H; try congruence; injection H; congruence. }
    split; [discriminate|].
    intros [(H & _)|(_ & [(H & _)|[(H & _)|(H & _)]])];
      try discriminate H; injection H; congruence.
  - split.
    + destruct (Receipt.receiptType r); try discriminate; contradiction.
    + intros [(H & _)|(H & _)]; contradiction.
Qed.

(** X4: when a receipt throws.  The handler of a receipt throws exactly
    when the receipt is a mint without a contract or without a
    sub-identifier (a [TypeError]), or a log with one of the three known
    discriminators whose payload does not decode (the decoder's error);
    and then the world is exactly as it was: nothing was printed, looked up
    or written. *)
Theorem on_receipt_throws_iff (abi : Interface) (r : Receipt.t)
  (w w' : World) (e : Exn) :
  on_receipt abi r w = (Throws e, w') <->
  w' = w /\
  ((Receipt.receiptType r = MINT /\
    (Receipt.contract r = None \/ Receipt.subId r = None) /\
    e = TypeError) \/
   (Receipt.receiptType r = LOG_DATA /\
    ((Receipt.rb r = Some setNameEventId /\
      decodeLog_setName abi (Receipt.data r) = Throws e) \/
     (Receipt.rb r = Some setSymbolEventId /\
      decodeLog_setSymbol abi (Receipt.data r) = Throws e) \/
     (Receipt.rb r = Some setDecimalsEventId /\
      decodeLog_setDecimals abi (Receipt.data r) = Throws e)))).
Proof.
  rewrite <- effect_Throws, on_receipt_outcome.
  destruct (effect abi r) as [[[t f]|]|e'];
    (split; [intros H | intros [-> H]]); try discriminate.
  - injection H as -> ->. auto.
  - injection H as ->. reflexivity.
Qed.

Lemma forEach_snoc_Throws {A} (body : A -> M unit) (pre post : list A)
  (x : A) (w w1 w2 : World) (e : Exn) :
  forEach pre body w = (Returns tt, w1) ->
  body x w1 = (Throws e, w2) ->
  forEach (pre ++ x :: post) body w = (Throws e, w2).
Proof.
  intros Hpre Hx. rewrite forEach_app, (bind_Returns _ _ _ _ _ Hpre).
  cbn [forEach]. apply bind_Throws. exact Hx.
Qed.

(** X5: the batch aborts at the first failing receipt.  When the receipts
    before [r] are processed and [r] throws, the handler throws the same
    error; the world is the one the preceding receipts left, and no receipt
    after [r] has any effect. *)
Theorem abort_at_first_failure (abi : Interface) (rows : list Asset.t)
  (blocks : list Block.t) (pre post : list Receipt.t) (r : Receipt.t)
  (w1 w1' : World) (e : Exn) :
  receipts_of blocks = pre ++ r :: post ->
  forEach pre (on_receipt abi) (batch_start rows) = (Returns tt, w1) ->
  on_receipt abi r w1 = (Throws e, w1') ->
  run abi rows blocks = (Throws e, w1).
Proof.
  intros Hflat Hpre Hr.
  assert (Hw : w1' = w1).
  { rewrite on_receipt_outcome in Hr.
    destruct (effect abi r) as [[[t f]|]|e']; try discriminate.
    injection Hr as _ ->. reflexivity. }
  subst w1'. unfold run. apply handler_Throws.
  rewrite process_flat, Hflat. eapply forEach_snoc_Throws; eassumption.
Qed.

Lemma abort_at_first_failure_witness :
  run Sample.abi [] Sample.aborting_batch =
  (Throws DecodeError,
   snd (on_receipt Sample.abi Sample.mint (batch_start []))).
Proof.
  apply (abort_at_first_failure Sample.abi [] Sample.aborting_batch
           [Sample.mint] [] (Sample.log_data setNameEventId "malformed")
           _ (snd (on_receipt Sample.abi Sample.mint (batch_start [])))).
  - reflexivity.
  - vm_compute. reflexivity.
  - vm_compute. reflexivity.
Defined.

Lemma ignored_effect (abi : Interface) (r : Receipt.t) :
  ignored r -> effect abi r = Returns None.
Proof.
  unfold ignored, effect. intros [[H1 H2]|(Hty & Hn & Hs & Hd)].
  - destruct (Receipt.receiptType r); try reflexivity; contradiction.
  - rewrite Hty. destruct (Receipt.rb r) as [rb|]; [|reflexivity].
    destruct (Z.eqb_spec rb setNameEventId) as [->|_]; [contradiction|].
    destruct (Z.eqb_spec rb setSymbolEventId) as [->|_]; [contradiction|].
    destruct (Z.eqb_spec rb setDecimalsEventId) as [->|_]; [contradiction|].
    reflexivity.
Qed.

Lemma forEach_ignored (abi : Interface) (rs : list Receipt.t) (w : World) :
  Forall ignored rs -> forEach rs (on_receipt abi) w = (Returns tt, w).
Proof.
  induction 1 as [|r rs Hr _ IH]; [reflexivity|]. cbn [forEach].
  erewrite bind_Returns; [exact IH|].
  rewrite on_receipt_outcome, (ignored_effect abi r Hr). reflexivity.
Qed.

(** X6: a batch without events.  When every receipt of the batch is
    skipped (it is neither a mint nor a log, or it is a log whose
    discriminator is absent or unknown), and in particular when the batch
    is empty, the handler returns after one upsert of the empty list: no
    lookup was made, no instance created, and the rows of the store are
    unchanged. *)
Theorem batch_without_events (abi : Interface) (rows : list Asset.t)
  (blocks : list Block.t) :
  Forall ignored (receipts_of blocks) ->
  run abi rows blocks =
  (Returns tt,
   {| store := rows; heap := []; assetsById := []; findOne_calls := [];
      upsert_calls := [[]]; console := [] |}).
Proof.
  intros Hall. unfold run.
  rewrite (handler_Returns abi blocks _ (batch_start rows)); [reflexivity|].
  rewrite process_flat. apply forEach_ignored. exact Hall.
Qed.

Lemma batch_without_events_witness :
  run Sample.abi [Sample.stored]
    [Sample.block []; Sample.block [Sample.log_data 42 "name:Token"]] =
  (Returns tt,
   {| store := [Sample.stored]; heap := []; assetsById := [];
      findOne_calls := []; upsert_calls := [[]]; console := [] |}).
Proof.
  apply batch_without_events.
  apply Forall_cons. split; [|apply Forall_nil; exact I].
  right. repeat split; discriminate.
Defined.

(** X7: a log is applied whatever contract emitted it.  Two [LOG_DATA]
    receipts with the same discriminator and the same payload are handled
    alike, from any world, whatever their [contract] and [subId] fields:
    the handler never compares the emitter of a log with the contract of
    the asset the log names. *)
Theorem log_applied_whatever_the_emitter (abi : Interface)
  (r1 r2 : Receipt.t) (w : World) :
  Receipt.receiptType r1 = LOG_DATA ->
  Receipt.receiptType r2 = LOG_DATA ->
  Receipt.rb r1 = Receipt.rb r2 ->
  Receipt.data r1 = Receipt.data r2 ->
  on_receipt abi r1 w = on_receipt abi r2 w.
Proof.
  intros H1 H2 Hrb Hdata. rewrite !on_receipt_outcome.
  assert (He : effect abi r1 = effect abi r2)
    by (unfold effect; rewrite H1, H2, Hrb, Hdata; reflexivity).
  assert (Hp : printed abi r1 = printed abi r2)
    by (unfold printed; rewrite H1, H2, Hrb, Hdata; reflexivity).
  rewrite He, Hp. reflexivity.
Qed.

Lemma log_applied_whatever_the_emitter_witness :
  on_receipt Sample.abi
    {| Receipt.receiptType := LOG_DATA; Receipt.contract := Some "0x01"%string;
       Receipt.subId := None; Receipt.rb := Some setNameEventId;
       Receipt.data := Some "name:Coin"%string |}
    (batch_start [Sample.stored])
  = on_receipt Sample.abi (Sample.log_data setNameEventId "name:Coin")
      (batch_start [Sample.stored]).
Proof. apply log_applied_whatever_the_emitter; reflexivity. Defined.

(* ===================================================================== *)
(** ** The batch as a fold over its receipts *)
(* ===================================================================== *)

Lemma existsb_keys (t : string) (o : list (string * nat)) :
  existsb (String.eqb t) (map fst o) =
  match get_prop t o with Some _ => true | None => false end.
Proof.
  induction o as [|[k v] o IH]; [reflexivity|]. cbn [map fst existsb get_prop].
  rewrite (String.eqb_sym t k). destruct (String.eqb k t); [reflexivity|].
  exact IH.
Qed.

Lemma existsb_eqb_In (t : string) (keys : list string) :
  existsb (String.eqb t) keys = true <-> In t keys.
Proof.
  rewrite existsb_exists. split.
  - intros (x & Hx & Heq). apply String.eqb_eq in Heq. subst. exact Hx.
  - intros H. exists t. split; [exact H | apply String.eqb_refl].
Qed.

(** The table, the lookups and the heap after one touch. *)
Lemma touch_shape (t : string) (f : Asset.t -> Asset.t)
  (lines : list (string * string)) (w : World) :
  let w' := touch t f (print lines w) in
  map fst (assetsById w') =
    (if existsb (String.eqb t) (map fst (assetsById w))
     then map fst (assetsById w) else map fst (assetsById w) ++ [t]) /\
  (tidy w -> tidy w').
Proof.
  unfold touch, tidy. cbn [print assetsById heap store findOne_calls].
  rewrite existsb_keys.
  destruct (get_prop t (assetsById w)) as [r|] eqn:Ht.
  - cbn [assign snd assetsById heap findOne_calls]. rewrite length_alter.
    split; [reflexivity | tauto].
  - cbn [assetsById heap findOne_calls].
    rewrite (set_prop_keys_new _ _ _ Ht), map_app, !length_app. simpl.
    split; [reflexivity|]. intros [-> ->]. split; reflexivity.
Qed.

(** One receipt that returns: the table grows by [note], and stays tidy. *)
Lemma on_receipt_note (abi : Interface) (r : Receipt.t) (w w' : World)
  (o : Outcome unit) :
  on_receipt abi r w = (o, w') ->
  (tidy w -> tidy w') /\
  (o = Returns tt ->
   map fst (assetsById w') = note abi (map fst (assetsById w)) r).
Proof.
  rewrite on_receipt_outcome. unfold note.
  destruct (effect abi r) as [[[t f]|]|e]; intros [= <- <-].
  - destruct (touch_shape t f (printed abi r) w) as [Hk Ht]. auto.
  - auto.
  - split; [auto | discriminate].
Qed.

Lemma forEach_tidy (abi : Interface) (rs : list Receipt.t) (w w' : World)
  (o : Outcome unit) :
  tidy w -> forEach rs (on_receipt abi) w = (o, w') -> tidy w'.
Proof.
  revert w. induction rs as [|r rs IH]; intros w Hw; cbn [forEach].
  - intros [= _ <-]. exact Hw.
  - unfold bind. destruct (on_receipt abi r w) as [[[]|e] w1] eqn:H1.
    + apply IH. eapply on_receipt_note; eassumption.
    + intros [= _ <-]. eapply on_receipt_note; eassumption.
Qed.

Lemma on_receipt_view (abi : Interface) (r : Receipt.t) (w w' : World) :
  wf w -> on_receipt abi r w = (Returns tt, w') ->
  forall k, view w' k = apply_to abi k r (view w k).
Proof.
  intros Hw Hrun k. pose proof (on_receipt_effect abi r w Hw) as He.
  unfold apply_to. destruct (effect abi r) as [[[t f]|]|e].
  - destruct He as (w1 & Hrun1 & _ & Ht). rewrite Hrun in Hrun1.
    injection Hrun1 as <-. rewrite (touched_view _ _ _ _ Ht).
    rewrite (String.eqb_sym t k).
    destruct (String.eqb_spec k t) as [->|_]; reflexivity.
  - rewrite Hrun in He. injection He as ->. reflexivity.
  - rewrite Hrun in He. discriminate.
Qed.

(** The loops, when they return: every held record went through the
    setters of the receipts that address it, in order, and the table lists
    the identifiers in the order of their first reference. *)
Lemma forEach_fold (abi : Interface) (rs : list Receipt.t) (w w' : World) :
  wf w ->
  forEach rs (on_receipt abi) w = (Returns tt, w') ->
  (forall k, view w' k = merged abi k rs (view w k)) /\
  map fst (assetsById w') = fold_left (note abi) rs (map fst (assetsById w)).
Proof.
  revert w. induction rs as [|r rs IH]; intros w Hw; cbn [forEach].
  - intros [= <-]. split; reflexivity.
  - unfold bind. destruct (on_receipt abi r w) as [[[]|e] w1] eqn:H1;
      [|discriminate].
    intros H2.
    destruct (on_receipt_keeps _ _ _ _ _ Hw H1) as (Hw1 & _).
    destruct (IH w1 Hw1 H2) as [Hview Hkeys]. split.
    + intros k. rewrite Hview, (on_receipt_view _ _ _ _ Hw H1). reflexivity.
    + rewrite Hkeys. cbn [fold_left]. f_equal.
      eapply on_receipt_note; [exact H1 | reflexivity].
Qed.

Lemma note_In (abi : Interface) (keys : list string) (r : Receipt.t)
  (k : string) :
  In k (note abi keys r) <-> In k keys \/ addresses abi k r = true.
Proof.
  unfold note, addresses. destruct (effect abi r) as [[[t f]|]|e].
  - destruct (existsb (String.eqb t) keys) eqn:Hex.
    + apply existsb_eqb_In in Hex. rewrite String.eqb_eq. split; [tauto|].
      intros [H | ->]; assumption.
    + rewrite in_app_iff, String.eqb_eq. simpl. tauto.
  - split; [tauto | intros [H|H]; [exact H | discriminate]].
  - split; [tauto | intros [H|H]; [exact H | discriminate]].
Qed.

Lemma note_NoDup (abi : Interface) (keys : list string) (r : Receipt.t) :
  NoDup keys -> NoDup (note abi keys r).
Proof.
  intros Hnd. unfold note. destruct (effect abi r) as [[[t f]|]|e]; try exact Hnd.
  destruct (existsb (String.eqb t) keys) eqn:Hex; [exact Hnd|].
  apply NoDup_app. split; [exact Hnd|]. split; [|apply NoDup_singleton].
  intros x Hx Hx'. apply list_elem_of_In in Hx, Hx'. destruct Hx' as [<-|[]].
  apply existsb_eqb_In in Hx. congruence.
Qed.

Lemma notes_In (abi : Interface) (rs : list Receipt.t) (keys : list string)
  (k : string) :
  In k (fold_left (note abi) rs keys) <->
  In k keys \/ addressed abi k rs = true.
Proof.
  unfold addressed. revert keys.
  induction rs as [|r rs IH]; intros keys; cbn [fold_left existsb].
  - split; [tauto | intros [H|H]; [exact H | discriminate]].
  - rewrite IH, note_In, orb_true_iff. tauto.
Qed.

Lemma notes_NoDup (abi : Interface) (rs : list Receipt.t) (keys : list string) :
  NoDup keys -> NoDup (fold_left (note abi) rs keys).
Proof.
  revert keys. induction rs as [|r rs IH]; intros keys H; [exact H|].
  apply IH, note_NoDup, H.
Qed.

Lemma targets_In (abi : Interface) (rs : list Receipt.t) (k : string) :
  In k (targets abi rs) <-> addressed abi k rs = true.
Proof. unfold targets. rewrite notes_In. simpl. tauto. Qed.

Lemma targets_NoDup (abi : Interface) (rs : list Receipt.t) :
  NoDup (targets abi rs).
Proof. apply notes_NoDup, NoDup_nil. exact I. Qed.

Lemma apply_to_id (abi : Interface) (k : string) (r : Receipt.t) (a : Asset.t) :
  Asset.id (apply_to abi k r a) = Asset.id a.
Proof.
  unfold apply_to. destruct (effect abi r) as [[[t f]|]|e] eqn:He;
    try reflexivity.
  destruct (String.eqb t k); [|reflexivity].
  apply (effect_writes_within abi r t f a He).
Qed.

Lemma merged_id (abi : Interface) (k : string) (rs : list Receipt.t)
  (a : Asset.t) :
  Asset.id (merged abi k rs a) = Asset.id a.
Proof.
  unfold merged. revert a. induction rs as [|r rs IH]; intros a; [reflexivity|].
  cbn [fold_left]. rewrite IH. apply apply_to_id.
Qed.

Lemma merged_app (abi : Interface) (k : string) (rs1 rs2 : list Receipt.t)
  (a : Asset.t) :
  merged abi k (rs1 ++ rs2) a = merged abi k rs2 (merged abi k rs1 a).
Proof. unfold merged. apply fold_left_app. Qed.

Lemma merged_not_addressed (abi : Interface) (k : string)
  (rs : list Receipt.t) (a : Asset.t) :
  addressed abi k rs = false -> merged abi k rs a = a.
Proof.
  unfold addressed, merged. revert a.
  induction rs as [|r rs IH]; intros a; [reflexivity|].
  cbn [existsb fold_left]. rewrite orb_false_iff. intros [Hr Hrs].
  rewrite IH by exact Hrs. unfold apply_to, addresses in *.
  destruct (effect abi r) as [[[t f]|]|e]; try reflexivity.
  rewrite Hr. reflexivity.
Qed.

Lemma merge_base_id (rows : list Asset.t) (k : string) :
  Asset.id (merge_base rows k) = k.
Proof. exact (view_id (batch_start rows) k (wf_batch_start rows)). Qed.

(** The batch that returns, as a fold. *)
Lemma run_fold (abi : Interface) (rows : list Asset.t) (blocks : list Block.t)
  (w : World) :
  run abi rows blocks = (Returns tt, w) ->
  let rs := receipts_of blocks in
  let records :=
    map (fun k => merged abi k rs (merge_base rows k)) (targets abi rs) in
  upsert_calls w = [records] /\
  store w = upsert_rows records rows /\
  findOne_calls w = targets abi rs /\
  map Asset.id records = targets abi rs.
Proof.
  intros Hrun rs records. unfold run in Hrun.
  destruct (process abi blocks (batch_start rows)) as [[[]|e] w1] eqn:Hp.
  2:{ rewrite (handler_Throws _ _ _ _ _ Hp) in Hrun. discriminate. }
  rewrite (handler_Returns _ _ _ _ Hp) in Hrun. rewrite process_flat in Hp.
  destruct (forEach_keeps _ _ _ _ _ (wf_batch_start rows) Hp)
    as (Hw1 & Hst & Hup & _).
  destruct (forEach_fold _ _ _ _ (wf_batch_start rows) Hp) as [Hview Hkeys].
  assert (Htidy : tidy w1).
  { eapply forEach_tidy; [|exact Hp]. split; reflexivity. }
  rewrite (Object_values_view _ Hw1) in Hrun.
  unfold upsert in Hrun. injection Hrun as <-.
  cbn [upsert_calls store findOne_calls].
  assert (Hrecs : map (view w1) (map fst (assetsById w1)) = records).
  { rewrite Hkeys. apply map_ext. intros k. apply Hview. }
  rewrite Hrecs, Hst, Hup. destruct Htidy as [Hcalls _].
  rewrite Hcalls, Hkeys. repeat split.
  subst records. rewrite map_map. erewrite map_ext; [apply map_id|].
  intros k. cbn beta. rewrite merged_id. apply merge_base_id.
Qed.

Lemma upsert_rows_nil (rows : list Asset.t) : upsert_rows [] rows = rows.
Proof. reflexivity. Qed.

(** The row of each identifier after a batch that returns. *)
Lemma run_lookup (abi : Interface) (rows : list Asset.t)
  (blocks : list Block.t) (w : World) (k : string) :
  run abi rows blocks = (Returns tt, w) ->
  find_row k (store w) =
  if addressed abi k (receipts_of blocks)
  then Some (merged abi k (receipts_of blocks) (merge_base rows k))
  else find_row k rows.
Proof.
  intros Hrun. destruct (run_fold _ _ _ _ Hrun) as (_ & Hst & _ & Hids).
  rewrite Hst.
  destruct (addressed abi k (receipts_of blocks)) eqn:Hk.
  - apply targets_In in Hk.
    set (a := merged abi k (receipts_of blocks) (merge_base rows k)).
    assert (Hid : Asset.id a = k)
      by (subst a; rewrite merged_id; apply merge_base_id).
    rewrite <- Hid at 1. apply find_upsert_rows.
    + rewrite Hids. apply targets_NoDup.
    + subst a. apply (in_map (fun k => merged abi k _ (merge_base rows k))).
      exact Hk.
  - apply find_upsert_rows_notin. rewrite Hids, targets_In, Hk. discriminate.
Qed.

(** X8: the batch is a fold.  When the handler returns, it has made one
    lookup per identifier addressed by a receipt (a mint or a decoded
    log), in the order of first reference, and one upsert, of one record
    per such identifier in that same order; each record is the merge base
    of its identifier (the stored row, or a new record) passed through the
    assignments of the receipts that address it, in the order of the
    receipts; the records have distinct [id]s, each its own identifier. *)
Theorem batch_is_a_fold (abi : Interface) (rows : list Asset.t)
  (blocks : list Block.t) (w : World) :
  run abi rows blocks = (Returns tt, w) ->
  let rs := receipts_of blocks in
  let records :=
    map (fun k => merged abi k rs (merge_base rows k)) (targets abi rs) in
  upsert_calls w = [records] /\
  store w = upsert_rows records rows /\
  findOne_calls w = targets abi rs /\
  map Asset.id records = targets abi rs /\
  NoDup (map Asset.id records).
Proof.
  intros Hrun rs records.
  destruct (run_fold _ _ _ _ Hrun) as (Hup & Hst & Hcalls & Hids).
  fold rs in Hup, Hst, Hcalls, Hids. fold records in Hup, Hst, Hids.
  repeat split; try assumption. rewrite Hids. apply targets_NoDup.
Qed.

Lemma batch_is_a_fold_witness :
  upsert_calls (snd (run Sample.abi [Sample.stored] Sample.renamed)) =
  [[{| Asset.id := Sample.assetAB;
       Asset.contractId := Some Sample.contractAA;
       Asset.subId := Some Sample.subBB;
       Asset.name := Some "Coin"%string;
       Asset.symbol := Some "TKN"%string;
       Asset.decimals := None |}]].
Proof.
  destruct (batch_is_a_fold Sample.abi [Sample.stored] Sample.renamed
              (snd (run Sample.abi [Sample.stored] Sample.renamed)))
    as (Hup & _).
  - vm_compute. reflexivity.
  - rewrite Hup. vm_compute. reflexivity.
Defined.

(** X9: the store after a batch.  When the handler returns, the row of an
    identifier that some receipt addressed is its merge base passed
    through the assignments of the receipts that address it, in order; the
    row of any other identifier, present or absent, is as before. *)
Theorem store_after_batch (abi : Interface) (rows : list Asset.t)
  (blocks : list Block.t) (w : World) (k : string) :
  run abi rows blocks = (Returns tt, w) ->
  (addressed abi k (receipts_of blocks) = true ->
   find_row k (store w) =
   Some (merged abi k (receipts_of blocks) (merge_base rows k))) /\
  (addressed abi k (receipts_of blocks) = false ->
   find_row k (store w) = find_row k rows).
Proof.
  intros Hrun. rewrite (run_lookup _ _ _ _ k Hrun).
  split; intros ->; reflexivity.
Qed.

Lemma store_after_batch_witness :
  find_row "0x00" (store (snd (run Sample.abi [Sample.stored] Sample.renamed)))
  = None /\
  find_row Sample.assetAB
    (store (snd (run Sample.abi [Sample.stored] Sample.renamed)))
  = Some (merged Sample.abi Sample.assetAB (receipts_of Sample.renamed)
            Sample.stored).
Proof.
  destruct (store_after_batch Sample.abi [Sample.stored] Sample.renamed
              (snd (run Sample.abi [Sample.stored] Sample.renamed)) "0x00")
    as [_ H0]; [vm_compute; reflexivity|].
  destruct (store_after_batch Sample.abi [Sample.stored] Sample.renamed
              (snd (run Sample.abi [Sample.stored] Sample.renamed))
              Sample.assetAB)
    as [H1 _]; [vm_compute; reflexivity|].
  split.
  - rewrite H0; vm_compute; reflexivity.
  - rewrite H1 by (vm_compute; reflexivity). vm_compute. reflexivity.
Defined.

(** X10: one lookup and one instance per identifier.  However the handler
    ends, the identifiers it looked up in the store are pairwise distinct,
    they are the identifiers of the table in the order they were entered,
    and there is exactly one instance per identifier: no identifier is
    fetched twice in a batch, and none gets a second instance. *)
Theorem one_lookup_per_identifier (abi : Interface) (rows : list Asset.t)
  (blocks : list Block.t) (o : Outcome unit) (w : World) :
  run abi rows blocks = (o, w) ->
  NoDup (findOne_calls w) /\
  findOne_calls w = map fst (assetsById w) /\
  length (heap w) = length (findOne_calls w).
Proof.
  unfold run. intros Hrun.
  destruct (process abi blocks (batch_start rows)) as [o1 w1] eqn:Hp.
  assert (H1 : wf w1 /\ tidy w1).
  { rewrite process_flat in Hp. split.
    - eapply forEach_keeps; [apply wf_batch_start | exact Hp].
    - eapply forEach_tidy; [|exact Hp]. split; reflexivity. }
  destruct H1 as [Hw1 [Hcalls Hlen]].
  assert (Hsame : findOne_calls w = findOne_calls w1 /\
                  assetsById w = assetsById w1 /\ heap w = heap w1).
  { destruct o1 as [[]|e].
    - rewrite (handler_Returns _ _ _ _ Hp) in Hrun. injection Hrun as _ <-.
      auto.
    - rewrite (handler_Throws _ _ _ _ _ Hp) in Hrun. injection Hrun as _ <-.
      auto. }
  destruct Hsame as (-> & -> & ->).
  rewrite Hcalls, Hlen, length_map. repeat split. apply Hw1.
Qed.

(* ===================================================================== *)
(** ** Batches against the store: outcome, replay, composition *)
(* ===================================================================== *)

(** Whether the loops return or throw, and which error, is decided by the
    receipts alone. *)
Lemma forEach_outcome (abi : Interface) (rs : list Receipt.t) (w w' : World) :
  fst (forEach rs (on_receipt abi) w) = fst (forEach rs (on_receipt abi) w').
Proof.
  revert w w'. induction rs as [|r rs IH]; intros w w'; [reflexivity|].
  cbn [forEach]. unfold bind. rewrite !on_receipt_outcome.
  destruct (effect abi r) as [[[t f]|]|e]; try reflexivity; apply IH.
Qed.

Lemma fst_handler (abi : Interface) (blocks : list Block.t) (w : World) :
  fst (handler abi blocks w) =
  fst (forEach (receipts_of blocks) (on_receipt abi) w).
Proof.
  rewrite <- process_flat.
  destruct (process abi blocks w) as [[[]|e] w1] eqn:Hp.
  - rewrite (handler_Returns _ _ _ _ Hp). reflexivity.
  - rewrite (handler_Throws _ _ _ _ _ Hp). reflexivity.
Qed.

Lemma run_outcome (abi : Interface) (rows rows' : list Asset.t)
  (blocks : list Block.t) :
  fst (run abi rows blocks) = fst (run abi rows' blocks).
Proof. unfold run. rewrite !fst_handler. apply forEach_outcome. Qed.

Lemma run_returns_with (abi : Interface) (rows rows' : list Asset.t)
  (blocks : list Block.t) (w : World) :
  run abi rows blocks = (Returns tt, w) ->
  exists w', run abi rows' blocks = (Returns tt, w').
Proof.
  intros Hrun. pose proof (run_outcome abi rows' rows blocks) as H.
  rewrite Hrun in H. destruct (run abi rows' blocks) as [o w'].
  simpl in H. subst o. exists w'. reflexivity.
Qed.

(** X11: the outcome of a batch does not depend on the store.  Whether
    the handler returns or throws, and the error it throws, are the same
    whatever rows the store holds: they are decided by the receipts and
    the decoders alone. *)
Theorem outcome_independent_of_store (abi : Interface)
  (rows rows' : list Asset.t) (blocks : list Block.t) :
  fst (run abi rows blocks) = fst (run abi rows' blocks).
Proof. apply run_outcome. Qed.

(** Every setter of the handler is a patch. *)
Lemma apply_patch_none (a : Asset.t) : apply_patch no_patch a = a.
Proof. destruct a. reflexivity. Qed.

Lemma apply_to_patch (abi : Interface) (k : string) (r : Receipt.t) :
  exists p, forall a, apply_to abi k r a = apply_patch p a.
Proof.
  assert (Hnone : exists p, forall a : Asset.t, a = apply_patch p a)
    by (exists no_patch; intros a; symmetry; apply apply_patch_none).
  unfold apply_to, effect.
  destruct (Receipt.receiptType r); try exact Hnone.
  - destruct (Receipt.rb r) as [rb|]; [|exact Hnone].
    destruct (rb =? setNameEventId).
    { destruct (decodeLog_setName abi (Receipt.data r)) as [[t v]|];
        [|exact Hnone].
      cbn [fst snd]. destruct (String.eqb t k); [|exact Hnone].
      exists {| p_contractId := None; p_subId := None;
                p_name := Some (Some v); p_symbol := None;
                p_decimals := None |}. reflexivity. }
    destruct (rb =? setSymbolEventId).
    { destruct (decodeLog_setSymbol abi (Receipt.data r)) as [[t v]|];
        [|exact Hnone].
      cbn [fst snd]. destruct (String.eqb t k); [|exact Hnone].
      exists {| p_contractId := None; p_subId := None; p_name := None;
                p_symbol := Some (Some v); p_decimals := None |}.
      reflexivity. }
    destruct (rb =? setDecimalsEventId); [|exact Hnone].
    destruct (decodeLog_setDecimals abi (Receipt.data r)) as [[t v]|];
      [|exact Hnone].
    cbn [fst snd]. destruct (String.eqb t k); [|exact Hnone].
    exists {| p_contractId := None; p_subId := None; p_name := None;
              p_symbol := None; p_decimals := Some (Some v) |}.
    reflexivity.
  - destruct (Receipt.contract r) as [c|]; [|exact Hnone].
    destruct (Receipt.subId r) as [s|]; [|exact Hnone].
    destruct (String.eqb (getAssetId c s) k); [|exact Hnone].
    exists {| p_contractId := Some (Some c); p_subId := Some (Some s);
              p_name := None; p_symbol := None; p_decimals := None |}.
    reflexivity.
Qed.

Lemma apply_patch_then (p q : Patch) (a : Asset.t) :
  apply_patch q (apply_patch p a) = apply_patch (patch_then p q) a.
Proof.
  destruct q as [[?|] [?|] [?|] [?|] [?|]]; reflexivity.
Qed.

Lemma apply_patch_idem (p : Patch) (a : Asset.t) :
  apply_patch p (apply_patch p a) = apply_patch p a.
Proof.
  destruct p as [[?|] [?|] [?|] [?|] [?|]]; reflexivity.
Qed.

Lemma merged_patch (abi : Interface) (k : string) (rs : list Receipt.t) :
  exists p, forall a, merged abi k rs a = apply_patch p a.
Proof.
  unfold merged. induction rs as [|r rs [p IH]].
  - exists no_patch. intros a. symmetry. apply apply_patch_none.
  - destruct (apply_to_patch abi k r) as [q Hq].
    exists (patch_then q p). intros a. cbn [fold_left].
    rewrite IH, Hq. apply apply_patch_then.
Qed.

(** Replaying the receipts on the record they produced changes nothing. *)
Lemma merged_idem (abi : Interface) (k : string) (rs : list Receipt.t)
  (a : Asset.t) :
  merged abi k rs (merged abi k rs a) = merged abi k rs a.
Proof.
  destruct (merged_patch abi k rs) as [p Hp]. rewrite !Hp.
  apply apply_patch_idem.
Qed.

Lemma upsert_row_same (a : Asset.t) (rows : list Asset.t) :
  find_row (Asset.id a) rows = Some a -> upsert_row a rows = rows.
Proof.
  unfold find_row. induction rows as [|r rows IH]; simpl; [discriminate|].
  destruct (has_id (Asset.id a) r).
  - intros [= ->]. reflexivity.
  - intros H. rewrite IH by exact H. reflexivity.
Qed.

Lemma upsert_rows_same (records rows : list Asset.t) :
  (forall a, In a records -> find_row (Asset.id a) rows = Some a) ->
  upsert_rows records rows = rows.
Proof.
  unfold upsert_rows. induction records as [|a records IH]; intros H;
    [reflexivity|].
  cbn [fold_left]. rewrite upsert_row_same by (apply H; left; reflexivity).
  apply IH. intros b Hb. apply H. right. exact Hb.
Qed.

(** X12: a batch can be replayed.  When the handler returned, running it
    again on the same batch, against the store it left, returns again,
    upserts the same records and leaves the rows of the store exactly as
    they are. *)
Theorem replayed_batch_changes_nothing (abi : Interface)
  (rows : list Asset.t) (blocks : list Block.t) (w1 : World) :
  run abi rows blocks = (Returns tt, w1) ->
  exists w2,
    run abi (store w1) blocks = (Returns tt, w2) /\
    upsert_calls w2 = upsert_calls w1 /\
    store w2 = store w1.
Proof.
  intros H1. destruct (run_returns_with abi rows (store w1) blocks w1 H1)
    as [w2 H2].
  exists w2. split; [exact H2|].
  destruct (run_fold _ _ _ _ H1) as (Hup1 & _ & _ & _).
  destruct (run_fold _ _ _ _ H2) as (Hup2 & Hst2 & _ & _).
  assert (Hrecs :
    map (fun k => merged abi k (receipts_of blocks) (merge_base (store w1) k))
        (targets abi (receipts_of blocks)) =
    map (fun k => merged abi k (receipts_of blocks) (merge_base rows k))
        (targets abi (receipts_of blocks))).
  { apply map_ext_in. intros k Hk. apply targets_In in Hk.
    unfold merge_base at 1. rewrite (run_lookup _ _ _ _ k H1), Hk.
    apply merged_idem. }
  rewrite Hrecs in Hup2, Hst2. split; [congruence|].
  rewrite Hst2. apply upsert_rows_same.
  intros a Ha. apply in_map_iff in Ha as (k & <- & Hk).
  apply targets_In in Hk. rewrite merged_id, merge_base_id.
  rewrite (run_lookup _ _ _ _ k H1), Hk. reflexivity.
Qed.

Lemma replayed_batch_witness :
  exists w2,
    run Sample.abi
      (store (snd (run Sample.abi [] Sample.renamed))) Sample.renamed
    = (Returns tt, w2) /\
    upsert_calls w2 = upsert_calls (snd (run Sample.abi [] Sample.renamed)) /\
    store w2 = store (snd (run Sample.abi [] Sample.renamed)).
Proof.
  apply (replayed_batch_changes_nothing Sample.abi [] Sample.renamed).
  vm_compute. reflexivity.
Defined.

Lemma receipts_of_app (b1 b2 : list Block.t) :
  receipts_of (b1 ++ b2) = receipts_of b1 ++ receipts_of b2.
Proof. unfold receipts_of. rewrite map_app. apply concat_app. Qed.

Lemma addressed_app (abi : Interface) (k : string) (rs1 rs2 : list Receipt.t) :
  addressed abi k (rs1 ++ rs2) = addressed abi k rs1 || addressed abi k rs2.
Proof. unfold addressed. apply existsb_app. Qed.

Lemma forEach_app_Returns {A} (body : A -> M unit) (xs ys : list A)
  (w : World) :
  fst (forEach xs body w) = Returns tt ->
  (forall w', fst (forEach ys body w') = Returns tt) ->
  fst (forEach (xs ++ ys) body w) = Returns tt.
Proof.
  intros Hx Hy. rewrite forEach_app. unfold bind.
  destruct (forEach xs body w) as [[[]|e] w1]; [apply Hy | discriminate Hx].
Qed.

(** X13: batch boundaries do not matter to the store.  When a first batch
    returns, and a second batch run against the store it left returns,
    then the two batches delivered as one return as well, and leave for
    every identifier the same row as the two runs did. *)
Theorem batches_compose (abi : Interface) (rows : list Asset.t)
  (b1 b2 : list Block.t) (w1 w2 : World) :
  run abi rows b1 = (Returns tt, w1) ->
  run abi (store w1) b2 = (Returns tt, w2) ->
  exists w,
    run abi rows (b1 ++ b2) = (Returns tt, w) /\
    forall k, find_row k (store w) = find_row k (store w2).
Proof.
  intros H1 H2.
  assert (Hret : fst (run abi rows (b1 ++ b2)) = Returns tt).
  { unfold run. rewrite fst_handler, receipts_of_app.
    apply forEach_app_Returns.
    - rewrite <- fst_handler. fold (run abi rows b1). rewrite H1. reflexivity.
    - intros w'. rewrite (forEach_outcome abi _ w' (batch_start (store w1))).
      rewrite <- fst_handler. fold (run abi (store w1) b2). rewrite H2.
      reflexivity. }
  destruct (run abi rows (b1 ++ b2)) as [o w] eqn:H. simpl in Hret. subst o.
  exists w. split; [reflexivity|]. intros k.
  rewrite (run_lookup _ _ _ _ k H), (run_lookup _ _ _ _ k H2).
  rewrite receipts_of_app, addressed_app, merged_app.
  unfold merge_base at 2. rewrite (run_lookup _ _ _ _ k H1).
  destruct (addressed abi k (receipts_of b1)) eqn:Hk1;
    destruct (addressed abi k (receipts_of b2)) eqn:Hk2; cbn [orb default from_option];
    try reflexivity.
  - rewrite (merged_not_addressed abi k (receipts_of b2)) by exact Hk2.
    reflexivity.
  - rewrite (merged_not_addressed abi k (receipts_of b1)) by exact Hk1.
    reflexivity.
Qed.

Lemma batches_compose_witness :
  exists w,
    run Sample.abi [] (Sample.mint_then_name ++ Sample.symbol_only)
    = (Returns tt, w) /\
    find_row Sample.assetAB (store w) =
    find_row Sample.assetAB
      (store (snd (run Sample.abi
                     (store (snd (run Sample.abi [] Sample.mint_then_name)))
                     Sample.symbol_only))).
Proof.
  destruct (batches_compose Sample.abi [] Sample.mint_then_name
              Sample.symbol_only
              (snd (run Sample.abi [] Sample.mint_then_name))
              (snd (run Sample.abi
                      (store (snd (run Sample.abi [] Sample.mint_then_name)))
                      Sample.symbol_only)))
    as (w & Hrun & Hrows).
  - vm_compute. reflexivity.
  - vm_compute. reflexivity.
  - exists w. split; [exact Hrun | apply Hrows].
Defined.

Lemma apply_to_not_addresses (abi : Interface) (k : string) (r : Receipt.t)
  (a : Asset.t) :
  addresses abi k r = false -> apply_to abi k r a = a.
Proof.
  unfold addresses, apply_to. destruct (effect abi r) as [[[t f]|]|e];
    try reflexivity.
  intros ->. reflexivity.
Qed.

Lemma forEach_swap_outcome (abi : Interface) (pre post : list Receipt.t)
  (r1 r2 : Receipt.t) (w : World) :
  fst (forEach (pre ++ r1 :: r2 :: post) (on_receipt abi) w) = Returns tt ->
  fst (forEach (pre ++ r2 :: r1 :: post) (on_receipt abi) w) = Returns tt.
Proof.
  rewrite !forEach_app. unfold bind.
  destruct (forEach pre (on_receipt abi) w) as [[[]|e] w1]; [|exact id].
  cbn [forEach]. unfold bind. rewrite !on_receipt_outcome.
  destruct (effect abi r1) as [[[t1 f1]|]|e1] eqn:E1;
    destruct (effect abi r2) as [[[t2 f2]|]|e2] eqn:E2;
    rewrite ?on_receipt_outcome, ?E1, ?E2; try discriminate;
    intros H; erewrite forEach_outcome; exact H.
Qed.

(** X14: receipts for different assets commute.  Swapping two adjacent
    receipts that do not address the same identifier keeps the handler
    returning and leaves, for every identifier, the same row in the
    store. *)
Theorem receipts_for_different_assets_commute (abi : Interface)
  (rows : list Asset.t) (b1 b2 : list Block.t) (pre post : list Receipt.t)
  (r1 r2 : Receipt.t) (w1 : World) :
  receipts_of b1 = pre ++ r1 :: r2 :: post ->
  receipts_of b2 = pre ++ r2 :: r1 :: post ->
  (forall k, addresses abi k r1 = true -> addresses abi k r2 = false) ->
  run abi rows b1 = (Returns tt, w1) ->
  exists w2,
    run abi rows b2 = (Returns tt, w2) /\
    forall k, find_row k (store w2) = find_row k (store w1).
Proof.
  intros Hf1 Hf2 Hdiff H1.
  assert (Hret : fst (run abi rows b2) = Returns tt).
  { unfold run. rewrite fst_handler, Hf2. apply forEach_swap_outcome.
    rewrite <- Hf1, <- fst_handler. fold (run abi rows b1). rewrite H1.
    reflexivity. }
  destruct (run abi rows b2) as [o w2] eqn:H2. simpl in Hret. subst o.
  exists w2. split; [reflexivity|]. intros k.
  rewrite (run_lookup _ _ _ _ k H1), (run_lookup _ _ _ _ k H2), Hf1, Hf2.
  rewrite !addressed_app, !merged_app. unfold addressed, merged.
  cbn [existsb fold_left]. fold (merged abi k post).
  assert (Hswap : forall a,
            apply_to abi k r1 (apply_to abi k r2 a) =
            apply_to abi k r2 (apply_to abi k r1 a)).
  { intros a. destruct (addresses abi k r1) eqn:Hk1.
    - rewrite !(apply_to_not_addresses abi k r2) by (apply Hdiff; exact Hk1).
      reflexivity.
    - rewrite !(apply_to_not_addresses abi k r1) by exact Hk1. reflexivity. }
  rewrite Hswap.
  rewrite (orb_assoc (addresses abi k r2)), (orb_comm (addresses abi k r2)),
    <- (orb_assoc (addresses abi k r1)).
  reflexivity.
Qed.

Lemma receipts_for_different_assets_commute_witness :
  exists w2,
    run Sample.abi [] Fixture.two_assets_swapped = (Returns tt, w2) /\
    find_row Sample.assetAB (store w2) =
    find_row Sample.assetAB
      (store (snd (run Sample.abi [] Fixture.two_assets))).
Proof.
  destruct (receipts_for_different_assets_commute Sample.abi []
              Fixture.two_assets Fixture.two_assets_swapped
              [] [Sample.log_data setNameEventId "name:Token"]
              Sample.mint Fixture.other_mint
              (snd (run Sample.abi [] Fixture.two_assets)))
    as (w2 & Hrun & Hrows).
  - reflexivity.
  - reflexivity.
  - intros k. unfold addresses.
    destruct (effect_mint Sample.abi Sample.mint _ _
                (conj eq_refl (conj eq_refl eq_refl))) as [-> _].
    destruct (effect_mint Sample.abi Fixture.other_mint _ _
                (conj eq_refl (conj eq_refl eq_refl))) as [-> _].
    intros H. apply String.eqb_eq in H. subst k. vm_compute. reflexivity.
  - vm_compute. reflexivity.
  - exists w2. split; [exact Hrun | apply Hrows].
Defined.

Lemma one_lookup_per_identifier_witness :
  NoDup (findOne_calls (snd (run Sample.abi [] Fixture.two_assets))) /\
  length (heap (snd (run Sample.abi [] Fixture.two_assets))) = 2%nat.
Proof.
  destruct (one_lookup_per_identifier Sample.abi [] Fixture.two_assets
              (fst (run Sample.abi [] Fixture.two_assets))
              (snd (run Sample.abi [] Fixture.two_assets)))
    as (Hnd & _ & Hlen).
  - apply surjective_pairing.
  - split; [exact Hnd|]. rewrite Hlen. vm_compute. reflexivity.
Defined.

Lemma on_receipt_throws_witness :
  snd (on_receipt Sample.abi (Sample.log_data setSymbolEventId "malformed")
         (batch_start [Sample.stored]))
  = batch_start [Sample.stored].
Proof.
  apply (on_receipt_throws_iff Sample.abi
           (Sample.log_data setSymbolEventId "malformed")
           (batch_start [Sample.stored]) _ DecodeError).
  vm_compute. reflexivity.
Defined.

(* ===================================================================== *)
(** ** Only the target record is written *)
(* ===================================================================== *)

Lemma target_effect (abi : Interface) (r : Receipt.t) :
  target abi r =
  match effect abi r with
  | Returns (Some (t, _)) => Some t
  | _ => None
  end.
Proof.
  unfold target, effect.
  destruct (Receipt.receiptType r); try reflexivity.
  - destruct (Receipt.rb r) as [rb|]; [|reflexivity].
    destruct (rb =? setNameEventId);
      [destruct (decodeLog_setName abi (Receipt.data r)); reflexivity|].
    destruct (rb =? setSymbolEventId);
      [destruct (decodeLog_setSymbol abi (Receipt.data r)); reflexivity|].
    destruct (rb =? setDecimalsEventId);
      [destruct (decodeLog_setDecimals abi (Receipt.data r)); reflexivity|].
    reflexivity.
  - destruct (Receipt.contract r), (Receipt.subId r); reflexivity.
Qed.

Lemma on_receipt_others_kept (abi : Interface) (r : Receipt.t)
  (w w' : World) (o : Outcome unit) (k : string) :
  wf w -> on_receipt abi r w = (o, w') ->
  target abi r <> Some k -> view w' k = view w k.
Proof.
  intros Hw Hrun. rewrite target_effect.
  pose proof (on_receipt_effect abi r w Hw) as He.
  destruct (effect abi r) as [[[t f]|]|e].
  - destruct He as (w1 & Hrun1 & _ & Ht). rewrite Hrun in Hrun1.
    injection Hrun1 as _ <-. intros Hk. rewrite (touched_view _ _ _ _ Ht).
    destruct (String.eqb_spec k t) as [->|_]; [congruence | reflexivity].
  - rewrite Hrun in He. injection He as _ ->. reflexivity.
  - rewrite Hrun in He. injection He as _ ->. reflexivity.
Qed.

Lemma on_receipt_instances_kept (abi : Interface) (r : Receipt.t)
  (w w' : World) (o : Outcome unit) (ref : nat) (a : Asset.t) :
  on_receipt abi r w = (o, w') ->
  heap w !! ref = Some a ->
  (forall t, target abi r = Some t ->
             get_prop t (assetsById w) <> Some ref) ->
  heap w' !! ref = Some a.
Proof.
  rewrite on_receipt_outcome, target_effect.
  destruct (effect abi r) as [[[t f]|]|e]; intros [= _ <-] Ha Hnot;
    try exact Ha.
  specialize (Hnot t eq_refl). unfold touch.
  cbn [print assetsById heap store].
  destruct (get_prop t (assetsById w)) as [r0|].
  - cbn [assign snd heap]. rewrite list_lookup_alter_ne; [exact Ha|].
    intros ->. apply Hnot. reflexivity.
  - cbn [heap]. apply lookup_app_l_Some. exact Ha.
Qed.

(** C10: every handler writes its own fields, of its target record, only.
    Across the processing of one receipt, whatever its outcome:
    - each record the batch holds (the record entered for an identifier,
      or the one [getAsset] would start from) and each instance that
      existed keep their [id]; under a [MINT] receipt they keep [name],
      [symbol] and [decimals]; under a [LOG_DATA] receipt they keep
      [contractId] and [subId] and, of [name], [symbol] and [decimals],
      all but the one its [rb] designates; under any other receipt they
      are unchanged;
    - the record held for any identifier other than the receipt's target
      (the identifier derived from the mint, or named by the decoded log)
      is unchanged in every field, and so is every instance other than
      the one entered in the table for the target. *)
Theorem handlers_write_only_their_fields (abi : Interface) (r : Receipt.t)
  (w w' : World) (o : Outcome unit) :
  wf w -> on_receipt abi r w = (o, w') ->
  (forall k, writes_within r (view w k) (view w' k)) /\
  (forall ref a, heap w !! ref = Some a ->
     exists a', heap w' !! ref = Some a' /\ writes_within r a a') /\
  (forall k, target abi r <> Some k -> view w' k = view w k) /\
  (forall ref a,
     heap w !! ref = Some a ->
     (forall t, target abi r = Some t ->
                get_prop t (assetsById w) <> Some ref) ->
     heap w' !! ref = Some a).
Proof.
  intros Hw Hrun.
  destruct (on_receipt_writes_within abi r w w' o Hw Hrun) as [Hview Hheap].
  split; [exact Hview|]. split; [exact Hheap|]. split.
  - intros k. apply (on_receipt_others_kept abi r w w' o k Hw Hrun).
  - intros ref a. apply (on_receipt_instances_kept abi r w w' o ref a Hrun).
Qed.

Lemma handlers_write_only_their_fields_witness :
  Asset.name (view Held.world Sample.assetAB) = Some "Token"%string /\
  Asset.name
    (view (snd (on_receipt Sample.abi Held.rename Held.world))
       Sample.assetAB) = Some "Coin"%string /\
  Asset.contractId
    (view (snd (on_receipt Sample.abi Held.rename Held.world))
       Sample.assetAB) = Some Sample.contractAA /\
  view (snd (on_receipt Sample.abi Held.rename Held.world)) Held.other_asset
    = view Held.world Held.other_asset /\
  Asset.contractId (view Held.world Held.other_asset) = Some "0x01"%string.
Proof.
  assert (Hwf : wf Held.world).
  { eapply (forEach_keeps Sample.abi _ (batch_start []) Held.world);
      [apply wf_batch_start | apply surjective_pairing]. }
  destruct (handlers_write_only_their_fields Sample.abi Held.rename
              Held.world (snd (on_receipt Sample.abi Held.rename Held.world))
              (fst (on_receipt Sample.abi Held.rename Held.world))
              Hwf (surjective_pairing _))
    as (Hview & _ & Hothers & _).
  split; [vm_compute; reflexivity|]. split; [vm_compute; reflexivity|].
  split.
  - destruct (Hview Sample.assetAB) as (_ & _ & Hlog & _).
    destruct (Hlog eq_refl) as (-> & _). vm_compute. reflexivity.
  - split; [|vm_compute; reflexivity].
    apply Hothers. intros H. vm_compute in H. discriminate H.
Defined.
